(** * MyGrad: the Tensor node of a reverse-mode autodiff graph

    A shallow embedding of [mygrad/tensor_base.py] (class [Tensor]) and the
    properties of graph construction, back-propagation and gradient reset
    stated about it.

    Python objects live in a heap: ndarray objects, Tensor objects and
    Operation objects are referred to by their position in three stores,
    so that two names for one object (aliasing) are visible in the model.
    Python exceptions are results: a call returns the heap it leaves behind
    together with either a value or the exception it raised. *)

From stdpp Require Import base list strings.

(** ** Exceptions and results *)

(** The Python exceptions that occur. *)
Inductive exn : Type :=
  | TypeError (msg : string)
  | ValueError (msg : string).

(** The ways a run of the embedding ends without a value: a Python
    exception, or one of two ends that belong to the model only. *)
Inductive failure : Type :=
  | Exception (e : exn)
  | DanglingReference   (* a reference to no object: no Python run gets here *)
  | OutOfFuel.          (* the bound on the call depth was reached *)
Coercion Exception : exn >-> failure.

Inductive result (E A : Type) : Type :=
  | Ok (a : A)
  | Raise (e : E).
Arguments Ok {E A} a.
Arguments Raise {E A} e.

(** ** The array library

    NumPy is not part of the repository. The embedding is written against
    the few array operations [Tensor] calls, and the general statements
    hold for any implementation of this interface. *)

Class NumPy : Type := {
  dtype : Type;
  ndarray : Type;                       (* the value of an array object *)
  get_dtype : ndarray → dtype;          (* a.dtype *)
  shape : ndarray → list nat;           (* a.shape *)
  issubdtype_number : dtype → bool;     (* np.issubdtype(d, np.number) *)
  np_one : ndarray;                     (* the value of np.asarray(1) *)
  np_ones : list nat → ndarray;         (* np.ones(s, dtype=float) *)
  np_add : ndarray → ndarray → result exn ndarray;   (* a + b, broadcasting *)
  np_sum_to : ndarray → list nat → result exn ndarray
    (* sum the broadcast axes of a back down to the given shape *)
}.

(** References to objects are positions in the heap's stores. *)
Abbreviation aref := nat (only parsing).   (* reference to an ndarray object *)
Abbreviation tid := nat (only parsing).    (* reference to a Tensor object *)
Abbreviation oid := nat (only parsing).    (* reference to an Operation object *)

Section WithNumPy.
Context `{NP : NumPy}.

(** a.ndim is the length of a.shape *)
Definition ndim (a : ndarray) : nat := length (shape a).

(** ** Objects and the heap *)

(** Extra arguments handed to an operation's forward pass. *)
Inductive pyarg : Type :=
  | ArgNone
  | ArgBool (b : bool)
  | ArgInt (z : Z)
  | ArgTuple (zs : list Z).

(** Modelled from the spec: the module [operations] (the [Operation] base
    class and [Add], [Subtract], [Multiply], [Divide], [Sum]) is not among
    the sources. An operation class declares [scalar_only], a forward pass
    (a pure function of the input arrays and the extra arguments to a raw
    array) and, for the backward pass, the gradient contribution of each
    input given the incoming gradient. *)
Record OpClass : Type := {
  op_scalar_only : bool;
  op_forward : list ndarray → list pyarg → list (string * pyarg) → result exn ndarray;
  op_backward_var : list ndarray → ndarray → nat → result exn ndarray
}.

(** An Operation instance: its class and the input Tensors it holds
    (order-preserving, duplicates allowed). *)
Record Operation : Type := {
  op_class : OpClass;
  variables : list tid
}.

(** A Tensor object. [grad] holds the value of the gradient buffer: the
    source never updates a gradient array in place (accumulation builds a
    new array with [+]). [data] is a reference, since one ndarray object
    can be the data of several Tensors. *)
Record Tensor : Type := {
  data : aref;
  grad : option ndarray;
  _constant : bool;
  _scalar_only : bool;
  _creator : option oid
}.

Record heap : Type := {
  arrays : list ndarray;
  tensors : list Tensor;
  operations : list Operation
}.

Definition empty_heap : heap :=
  {| arrays := []; tensors := []; operations := [] |}.

(** ** Computations: state that survives an exception *)

Definition M (A : Type) : Type := heap → heap * result failure A.

Definition ret {A} (a : A) : M A := λ h, (h, Ok a).
Definition raise {A} (e : failure) : M A := λ h, (h, Raise e).
Definition bind {A B} (c : M A) (k : A → M B) : M B :=
  λ h, match c h with
       | (h1, Ok a) => k a h1
       | (h1, Raise e) => (h1, Raise e)
       end.
Definition lift {A} (r : result exn A) : M A :=
  λ h, (h, match r with Ok a => Ok a | Raise e => Raise (Exception e) end).

Notation "x <- c ;; k" := (bind c (λ x, k))
  (at level 100, c at next level, right associativity).
Notation "c ;;; k" := (bind c (λ _, k))
  (at level 100, right associativity).

Fixpoint traverse {A B} (f : A → M B) (l : list A) : M (list B) :=
  match l with
  | [] => ret []
  | x :: l' => y <- f x ;; ys <- traverse f l' ;; ret (y :: ys)
  end.

(** [for i, x in enumerate(l, start=i0): body(i, x)] *)
Fixpoint for_each {A} (body : nat → A → M unit) (i0 : nat) (l : list A) : M unit :=
  match l with
  | [] => ret tt
  | x :: l' => body i0 x ;;; for_each body (S i0) l'
  end.

Definition of_option {A} (o : option A) : M A :=
  match o with
  | Some a => ret a
  | None => raise DanglingReference
  end.

Definition get_array (a : aref) : M ndarray := λ h, of_option (arrays h !! a) h.
Definition get_tensor (t : tid) : M Tensor := λ h, of_option (tensors h !! t) h.
Definition get_operation (f : oid) : M Operation := λ h, of_option (operations h !! f) h.

Definition new_array (v : ndarray) : M aref :=
  λ h, ({| arrays := arrays h ++ [v]; tensors := tensors h; operations := operations h |},
        Ok (length (arrays h))).
Definition new_tensor (T : Tensor) : M tid :=
  λ h, ({| arrays := arrays h; tensors := tensors h ++ [T]; operations := operations h |},
        Ok (length (tensors h))).
Definition new_operation (O : Operation) : M oid :=
  λ h, ({| arrays := arrays h; tensors := tensors h; operations := operations h ++ [O] |},
        Ok (length (operations h))).

Definition with_grad (g : option ndarray) (T : Tensor) : Tensor :=
  {| data := data T; grad := g; _constant := _constant T;
     _scalar_only := _scalar_only T; _creator := _creator T |}.

(** self.grad = g *)
Definition set_grad (self : tid) (g : option ndarray) : M unit :=
  T <- get_tensor self ;;
  λ h, ({| arrays := arrays h; tensors := <[self := with_grad g T]> (tensors h);
           operations := operations h |}, Ok tt).

(** f.variables = vars *)
Definition set_variables (f : oid) (vars : list tid) : M unit :=
  O <- get_operation f ;;
  λ h, ({| arrays := arrays h; tensors := tensors h;
           operations := <[f := {| op_class := op_class O; variables := vars |}]> (operations h) |},
        Ok tt).

(** In-place update of an ndarray object ([a[...] = v]): the object at
    reference [a] now has the value [v]. Used to state (in)dependence of
    arrays; the source itself never does it. *)
Definition array_store (a : aref) (v : ndarray) (h : heap) : heap :=
  {| arrays := <[a := v]> (arrays h); tensors := tensors h; operations := operations h |}.

(** ** Python values accepted where an array is expected *)

(** What np.asarray accepts: an ndarray object, or a number, list, tuple,
    ... from which it builds a new array, of value [v]. *)
Inductive array_like : Type :=
  | Ndarray (a : aref)
  | Literal (v : ndarray).

Inductive pyobj : Type :=
  | PyTensor (t : tid)
  | PyArray (x : array_like).

(** np.asarray(x): an ndarray is returned as it is, anything else is
    converted into a new array. *)
Definition np_asarray (x : array_like) : M aref :=
  match x with
  | Ndarray a => get_array a ;;; ret a
  | Literal v => new_array v
  end.

(** np.copy(a): a new array object with the same value *)
Definition np_copy (a : aref) : M aref :=
  v <- get_array a ;; new_array v.

(** ** Tensor.__init__ and Tensor._check_valid_dtype *)

Definition _check_valid_dtype (d : dtype) : M unit :=
  if negb (issubdtype_number d)
  then raise (TypeError "Tensor data must be a numeric type")
  else ret tt.

Definition Tensor_init (x : pyobj) (constant : bool) (_scalar_only : bool)
    (_creator : option oid) : M tid :=
  d <- match x with
       | PyTensor t => T <- get_tensor t ;; ret (data T)
       | PyArray y =>
              a <- np_asarray y ;;
              v <- get_array a ;;
              _check_valid_dtype (get_dtype v) ;;;
              ret a
       end ;;
  new_tensor {| data := d; grad := None; _constant := constant;
                _scalar_only := _scalar_only; _creator := _creator |}.

(** The arrays held by a sequence of Tensors: [var.data for var in vars] *)
Definition input_arrays (vars : list tid) : M (list ndarray) :=
  traverse (λ var, T <- get_tensor var ;; get_array (data T)) vars.

(** Modelled from the spec: [Operation.__call__] is not among the sources.
    The forward pass keeps the input Tensors in the operation and returns a
    raw array computed from their arrays and the extra arguments. *)
Definition Operation_call (f : oid) (tensor_vars : list tid)
    (op_args : list pyarg) (op_kwargs : list (string * pyarg)) : M aref :=
  set_variables f tensor_vars ;;;
  O <- get_operation f ;;
  ins <- input_arrays tensor_vars ;;
  out <- lift (op_forward (op_class O) ins op_args op_kwargs) ;;
  new_array out.

(** ** Tensor._op *)

(** [if not isinstance(var, cls): var = cls(var, constant=True)] *)
Definition coerce (var : pyobj) : M tid :=
  match var with
  | PyTensor t => ret t
  | _ => Tensor_init var true false None
  end.

(** The loop [for var in tensor_vars: scalar_only = scalar_only or
    (var.scalar_only and not var.constant)] *)
Definition scalar_only_loop (init : bool) (vars : list Tensor) : bool :=
  fold_left (λ scalar_only var,
               scalar_only || (_scalar_only var && negb (_constant var)))
            vars init.

Definition _op_core (Op : OpClass) (tensor_vars : list tid)
    (op_args : list pyarg) (op_kwargs : list (string * pyarg)) : M tid :=
  f <- new_operation {| op_class := Op; variables := [] |} ;;
  op_out <- Operation_call f tensor_vars op_args op_kwargs ;;
  vars <- traverse get_tensor tensor_vars ;;
  let is_const := forallb _constant vars in
  let scalar_only := scalar_only_loop (op_scalar_only Op && negb is_const) vars in
  Tensor_init (PyArray (Ndarray op_out)) is_const scalar_only (Some f).

Definition _op (Op : OpClass) (input_vars : list pyobj)
    (op_args : list pyarg) (op_kwargs : list (string * pyarg)) : M tid :=
  tensor_vars <- traverse coerce input_vars ;;
  _op_core Op tensor_vars op_args op_kwargs.

(** ** Tensor.backward *)

(** [np.asarray(grad.data if isinstance(grad, Tensor) else grad)], as a value *)
Definition incoming (grad : pyobj) : M ndarray :=
  match grad with
  | PyTensor t => T <- get_tensor t ;; get_array (data T)
  | PyArray (Ndarray a) => get_array a
  | PyArray (Literal v) => ret v
  end.

(** The gradient used when none is given. *)
Definition default_seed (d : ndarray) : ndarray :=
  if decide (ndim d = 0) then np_one else np_ones (shape d).

(** [grad if self.grad is None else self.grad + grad] *)
Definition accumulate (old : option ndarray) (g : ndarray) : result exn ndarray :=
  match old with
  | None => Ok g
  | Some o => np_add o g
  end.

(** Modelled from the spec: [Operation.backward] is not among the sources.
    It computes the contribution of every input, in input order, and calls
    [backward] with it on each input that is not constant. *)
Definition Operation_backward (Tensor_backward : tid → option pyobj → M unit)
    (f : oid) (g : ndarray) : M unit :=
  O <- get_operation f ;;
  ins <- input_arrays (variables O) ;;
  for_each (λ index var,
              contrib <- lift (op_backward_var (op_class O) ins g index) ;;
              T <- get_tensor var ;;
              if _constant T then ret tt
              else Tensor_backward var (Some (PyArray (Literal contrib))))
           0 (variables O).

(** [fuel] bounds the depth of the calls. *)
Fixpoint Tensor_backward (fuel : nat) (self : tid) (grad_in : option pyobj) : M unit :=
  match fuel with
  | 0 => raise OutOfFuel
  | S fuel' =>
      T <- get_tensor self ;;
      g <- match grad_in with
           | Some gr => incoming gr
           | None => d <- get_array (data T) ;;
                     ret (default_seed d)
           end ;;
      new <- lift (accumulate (grad T) g) ;;
      set_grad self (Some new) ;;;
      match _creator T with
      | Some f => Operation_backward (Tensor_backward fuel') f g
      | None => ret tt
      end
  end.

(** ** Tensor.null_gradients *)

(** Modelled from the spec: [Operation.null_gradients] is not among the
    sources. It calls [null_gradients] on every input Tensor, constant or
    not. *)
Definition Operation_null_gradients (Tensor_null_gradients : tid → M unit)
    (f : oid) : M unit :=
  O <- get_operation f ;;
  for_each (λ _ var, Tensor_null_gradients var) 0 (variables O).

Fixpoint Tensor_null_gradients (fuel : nat) (self : tid) : M unit :=
  match fuel with
  | 0 => raise OutOfFuel
  | S fuel' =>
      set_grad self None ;;;
      T <- get_tensor self ;;
      match _creator T with
      | Some f => Operation_null_gradients (Tensor_null_gradients fuel') f
      | None => ret tt
      end
  end.

(** ** Tensor.__copy__ and Tensor.__add__ *)

Definition Tensor_copy (self : tid) : M tid :=
  T <- get_tensor self ;;
  a <- np_copy (data T) ;;
  Tensor_init (PyArray (Ndarray a)) (_constant T) (_scalar_only T) None.

(** Modelled from the spec: the class [Add] is not among the sources. Its
    forward pass is the broadcasting sum of two arrays; the contribution of
    an input is the incoming gradient, summed back down to the input's
    shape when broadcasting expanded it. It is not [scalar_only]. *)
Definition Add : OpClass :=
  {| op_scalar_only := false;
     op_forward := λ ins _ _,
       match ins with
       | [a; b] => np_add a b
       | _ => Raise (TypeError "Add takes two inputs")
       end;
     op_backward_var := λ ins g index,
       match ins !! index with
       | Some a => if decide (shape g = shape a) then Ok g
                   else np_sum_to g (shape a)
       | None => Raise (ValueError "no such input")
       end |}.

Definition Tensor_add (self : tid) (other : pyobj) : M tid :=
  _op Add [PyTensor self; other] [] [].

Definition Tensor_radd (self : tid) (other : pyobj) : M tid :=
  _op Add [other; PyTensor self] [] [].

(** ** Notions used to state the properties *)

(** The array np.asarray makes of an array-like input. *)
Definition coerced (x : array_like) (h : heap) : option ndarray :=
  match x with
  | Ndarray a => arrays h !! a
  | Literal v => Some v
  end.

(** t.grad: [None] if there is no such Tensor, [Some None] if the buffer
    is absent. *)
Definition grad_of (h : heap) (t : tid) : option (option ndarray) :=
  grad <$> tensors h !! t.

(** The graph invariant: every reference leads to an object, and the
    inputs of a Tensor's creator are Tensors constructed before it (so the
    creator graph is acyclic). *)
Definition well_formed (h : heap) : Prop :=
  ∀ t T, tensors h !! t = Some T →
    is_Some (arrays h !! data T) ∧
    ∀ f, _creator T = Some f →
      ∃ O, operations h !! f = Some O ∧ Forall (λ v, v < t) (variables O).

(** [upstream h t u]: [u] is [t] or is reached from [t] through creator
    links. *)
Inductive upstream (h : heap) : tid → tid → Prop :=
  | upstream_here t : upstream h t t
  | upstream_input t T f O v u :
      tensors h !! t = Some T →
      _creator T = Some f →
      operations h !! f = Some O →
      v ∈ variables O →
      upstream h v u →
      upstream h t u.

(** Two Tensor records that differ at most in the gradient buffer. *)
Definition same_node (T T' : Tensor) : Prop :=
  data T' = data T ∧ _constant T' = _constant T ∧
  _scalar_only T' = _scalar_only T ∧ _creator T' = _creator T.

(** Two heaps with the same arrays, operations and graph, that differ at
    most in gradient buffers. *)
Definition same_graph (h h' : heap) : Prop :=
  arrays h' = arrays h ∧ operations h' = operations h ∧
  Forall2 same_node (tensors h) (tensors h').

(** Computations that only read the heap (and do not call a Tensor method,
    so that they cannot run out of fuel). *)
Definition reads {A} (c : M A) : Prop :=
  ∀ h h' r, c h = (h', r) → h' = h ∧ r ≠ Raise OutOfFuel.

(** A run of gradient resets: the graph is kept and every buffer is either
    kept or absent. *)
Definition cleared (h h' : heap) : Prop :=
  same_graph h h'
  ∧ ∀ t T', tensors h' !! t = Some T' → grad T' = None ∨ tensors h !! t = Some T'.

(** A run of [backward] that started at Tensors below [t]: the graph is
    kept and the Tensors from [t] on are as they were. *)
Definition touched_below (t : tid) (h h' : heap) : Prop :=
  same_graph h h' ∧ ∀ u, t ≤ u → tensors h' !! u = tensors h !! u.

(** The body of the loop of [Operation.backward]. *)
Definition backward_body (backward : tid → option pyobj → M unit)
    (contribution : nat → result exn ndarray) (index : nat) (var : tid) : M unit :=
  contrib <- lift (contribution index) ;;
  T <- get_tensor var ;;
  if _constant T then ret tt else backward var (Some (PyArray (Literal contrib))).

(** The gradient [backward] works with. *)
Definition seed_of (T : Tensor) (grad_in : option pyobj) : M ndarray :=
  match grad_in with
  | Some gr => incoming gr
  | None => d <- get_array (data T) ;; ret (default_seed d)
  end.

(** Every Tensor holds an array of numbers. *)
Definition numeric_data (h : heap) : Prop :=
  ∀ t T, tensors h !! t = Some T →
    ∃ a, arrays h !! data T = Some a ∧ issubdtype_number (get_dtype a) = true.

(** A check of the graph invariant that can be run. *)
Definition well_formedb (h : heap) : bool :=
  forallb (λ tT : nat * Tensor,
             bool_decide (data tT.2 < length (arrays h))
             && match _creator tT.2 with
                | None => true
                | Some f =>
                    match operations h !! f with
                    | Some op => forallb (λ v, bool_decide (v < tT.1)) (variables op)
                    | None => false
                    end
                end)
          (imap pair (tensors h)).

End WithNumPy.

Notation "x <- c ;; k" := (bind c (λ x, k))
  (at level 100, c at next level, right associativity).
Notation "c ;;; k" := (bind c (λ _, k))
  (at level 100, right associativity).


(** * The rest of the Tensor class *)

(** Modelled from the spec: the classes [Subtract], [Multiply], [Divide]
    and [Sum] of the module [operations] are not among the sources; the
    operators are written for any four operation classes. [np_minus_one] is
    the value of np.asarray(-1). *)
Class Catalogue `{NP : NumPy} : Type := {
  Subtract : OpClass;
  Multiply : OpClass;
  Divide : OpClass;
  Sum : OpClass;
  np_minus_one : ndarray
}.

Section Operators.
Context `{NP : NumPy} `{CAT : !Catalogue}.

Definition Tensor_sub (self : tid) (other : pyobj) : M tid :=
  _op Subtract [PyTensor self; other] [] [].

Definition Tensor_rsub (self : tid) (other : pyobj) : M tid :=
  _op Subtract [other; PyTensor self] [] [].

Definition Tensor_truediv (self : tid) (other : pyobj) : M tid :=
  _op Divide [PyTensor self; other] [] [].

Definition Tensor_rtruediv (self : tid) (other : pyobj) : M tid :=
  _op Divide [other; PyTensor self] [] [].

Definition Tensor_mul (self : tid) (other : pyobj) : M tid :=
  _op Multiply [PyTensor self; other] [] [].

Definition Tensor_rmul (self : tid) (other : pyobj) : M tid :=
  _op Multiply [other; PyTensor self] [] [].

(** [-1 * self]: an int cannot multiply a Tensor, so Python evaluates the
    product as [self.__rmul__(-1)]. *)
Definition Tensor_neg (self : tid) : M tid :=
  Tensor_rmul self (PyArray (Literal np_minus_one)).

(** [__invert__] has the body of [__neg__]. *)
Definition Tensor_invert (self : tid) : M tid :=
  Tensor_rmul self (PyArray (Literal np_minus_one)).

(** [__pos__] returns [self]. *)
Definition Tensor_pos (self : tid) : M tid := ret self.

(** [self._op(Sum, self, op_args=(axis, keepdims))] *)
Definition Tensor_sum (self : tid) (axis : pyarg) (keepdims : bool) : M tid :=
  _op Sum [PyTensor self] [axis; ArgBool keepdims] [].

(** The binary operators, each with its operation class and whether it is
    the reflected form (the other operand comes first). *)
Definition binary_operators : list ((tid → pyobj → M tid) * (OpClass * bool)) :=
  [ (Tensor_add, (Add, false)); (Tensor_radd, (Add, true));
    (Tensor_sub, (Subtract, false)); (Tensor_rsub, (Subtract, true));
    (Tensor_truediv, (Divide, false)); (Tensor_rtruediv, (Divide, true));
    (Tensor_mul, (Multiply, false)); (Tensor_rmul, (Multiply, true)) ].

(** An input of [_op] that is not a Tensor. *)
Definition is_raw (x : pyobj) : bool :=
  match x with
  | PyTensor _ => false
  | PyArray _ => true
  end.

(** How many inputs of [_op] are not Tensors. *)
Definition raw_count (xs : list pyobj) : nat := length (List.filter is_raw xs).

(** A Tensor as coercion makes it: a constant leaf without a gradient. *)
Definition constant_leaf (T : Tensor) : Prop :=
  _constant T = true ∧ _scalar_only T = false ∧ _creator T = None ∧ grad T = None.

(** [within t h h']: the heaps have the same graph, and a Tensor whose
    record differs is upstream of [t]. *)
Definition within (t : tid) (h h' : heap) : Prop :=
  same_graph h h'
  ∧ ∀ u, tensors h' !! u = tensors h !! u ∨ upstream h t u.

End Operators.

(** ** A reference array model

    A small executable implementation of the interface, used to run the
    embedding on concrete graphs: row-major arrays of integers with a dtype
    tag, NumPy's broadcasting rule for [+], and the sum that undoes it. *)

Module RefNumPy.

Inductive ref_dtype : Type := bool_ | int64 | float64 | str_.

Record ref_array : Type := {
  a_dtype : ref_dtype;
  a_shape : list nat;
  a_items : list Z
}.

Definition is_number (d : ref_dtype) : bool :=
  match d with
  | int64 | float64 => true
  | bool_ | str_ => false
  end.

Definition size_of (s : list nat) : nat := foldr Nat.mul 1 s.

(** position [k] of a row-major array of shape [s], as a multi-index *)
Fixpoint unravel (s : list nat) (k : nat) : list nat :=
  match s with
  | [] => []
  | _ :: s' => k / size_of s' :: unravel s' (k mod size_of s')
  end.

Fixpoint ravel (s : list nat) (ix : list nat) : nat :=
  match s, ix with
  | _ :: s', i :: ix' => i * size_of s' + ravel s' ix'
  | _, _ => 0
  end.

(** the index into an operand of shape [s] for the result index [ix]:
    trailing axes are aligned, an axis of length 1 is repeated *)
Definition operand_index (s : list nat) (ix : list nat) : list nat :=
  zip_with (λ d i, if decide (d = 1) then 0 else i) s
           (drop (length ix - length s) ix).

Definition pad_shape (n : nat) (s : list nat) : list nat :=
  replicate (n - length s) 1 ++ s.

Fixpoint broadcast_axes (s1 s2 : list nat) : option (list nat) :=
  match s1, s2 with
  | [], [] => Some []
  | d1 :: s1', d2 :: s2' =>
      match broadcast_axes s1' s2' with
      | Some s =>
          if decide (d1 = d2) then Some (d1 :: s)
          else if decide (d1 = 1) then Some (d2 :: s)
          else if decide (d2 = 1) then Some (d1 :: s)
          else None
      | None => None
      end
  | _, _ => None
  end.

Definition broadcast_shapes (s1 s2 : list nat) : option (list nat) :=
  let n := length s1 `max` length s2 in
  broadcast_axes (pad_shape n s1) (pad_shape n s2).

Definition item_at (a : ref_array) (ix : list nat) : Z :=
  nth (ravel (a_shape a) (operand_index (a_shape a) ix)) (a_items a) 0%Z.

Definition promote (d1 d2 : ref_dtype) : option ref_dtype :=
  match d1, d2 with
  | str_, _ | _, str_ => None
  | float64, _ | _, float64 => Some float64
  | int64, _ | _, int64 => Some int64
  | bool_, bool_ => Some bool_
  end.

Definition add_items (d : ref_dtype) (x y : Z) : Z :=
  match d with
  | bool_ => Z.max x y
  | _ => (x + y)%Z
  end.

Definition ref_add (a b : ref_array) : result exn ref_array :=
  match promote (a_dtype a) (a_dtype b) with
  | None => Raise (TypeError "ufunc add does not support these types")
  | Some d =>
      match broadcast_shapes (a_shape a) (a_shape b) with
      | None => Raise (ValueError "operands could not be broadcast together")
      | Some s =>
          Ok {| a_dtype := d; a_shape := s;
                a_items := (λ k, add_items d (item_at a (unravel s k))
                                               (item_at b (unravel s k)))
                           <$> seq 0 (size_of s) |}
      end
  end.

Definition ref_sum_to (g : ref_array) (s : list nat) : result exn ref_array :=
  if decide (broadcast_shapes s (a_shape g) = Some (a_shape g)) then
    Ok {| a_dtype := a_dtype g; a_shape := s;
          a_items :=
            (λ k', foldr Z.add 0%Z
                     (omap (λ k, if decide (ravel s (operand_index s (unravel (a_shape g) k)) = k')
                                 then Some (nth k (a_items g) 0%Z) else None)
                           (seq 0 (size_of (a_shape g)))))
            <$> seq 0 (size_of s) |}
  else Raise (ValueError "gradient does not broadcast from this shape").

Definition ref_one : ref_array :=
  {| a_dtype := int64; a_shape := []; a_items := [1%Z] |}.

Definition ref_ones (s : list nat) : ref_array :=
  {| a_dtype := float64; a_shape := s; a_items := replicate (size_of s) 1%Z |}.

#[export] Instance ref_numpy : NumPy :=
  {| dtype := ref_dtype;
     ndarray := ref_array;
     get_dtype := a_dtype;
     shape := a_shape;
     issubdtype_number := is_number;
     np_one := ref_one;
     np_ones := ref_ones;
     np_add := ref_add;
     np_sum_to := ref_sum_to |}.

(** 0-d, 1-d and 2-d integer or float arrays *)
Definition scalar (d : ref_dtype) (z : Z) : ndarray :=
  {| a_dtype := d; a_shape := []; a_items := [z] |}.
Definition vector (d : ref_dtype) (zs : list Z) : ndarray :=
  {| a_dtype := d; a_shape := [length zs]; a_items := zs |}.

(** *** Concrete graphs *)

Definition heap_after {A} (c : M A) (h : heap) : heap := (c h).1.

(** [x = Tensor(3)] *)
Definition heap_x : heap :=
  heap_after (Tensor_init (PyArray (Literal (scalar int64 3))) false false None)
             empty_heap.

(** [x = Tensor(3); y = x + x] *)
Definition heap_xx : heap := heap_after (Tensor_add 0 (PyTensor 0)) heap_x.

(** [x = Tensor(3); y = x + x; y.backward()] *)
Definition heap_xx_back : heap := heap_after (Tensor_backward 3 1 None) heap_xx.

(** [v = Tensor([1, 2])] *)
Definition heap_v : heap :=
  heap_after (Tensor_init (PyArray (Literal (vector int64 [1; 2]%Z))) false false None)
             empty_heap.

(** [v = Tensor([1, 2]); w = Tensor(v)] *)
Definition heap_vw : heap :=
  heap_after (Tensor_init (PyTensor 0) false false None) heap_v.

(** [s = Tensor([1., 2.], _scalar_only=True)] *)
Definition heap_s : heap :=
  heap_after (Tensor_init (PyArray (Literal (vector float64 [1; 2]%Z))) false true None)
             empty_heap.

(** [c = Tensor(1., constant=True)] *)
Definition heap_c : heap :=
  heap_after (Tensor_init (PyArray (Literal (scalar float64 1))) true false None)
             empty_heap.

(** [s + 1] with [s] flagged [scalar_only] *)
Definition s_plus_one : M nat :=
  _op Add [PyTensor 0; PyArray (Literal (scalar int64 1))] [] [].

(** *** Reference operation classes

    Exact integer arithmetic with broadcasting. What the integers cannot
    hold (a quotient that is not an integer, a division by zero, a sum
    over some of the axes) is outside this reference model and ends in a
    ValueError that says so. *)

Definition ref_zip (result_dtype : ref_dtype → option ref_dtype)
    (f : ref_dtype → Z → Z → option Z) (a b : ref_array) : result exn ref_array :=
  match promote (a_dtype a) (a_dtype b) with
  | None => Raise (TypeError "ufunc does not support these types")
  | Some d =>
      match result_dtype d with
      | None => Raise (TypeError "ufunc does not support these types")
      | Some d' =>
          match broadcast_shapes (a_shape a) (a_shape b) with
          | None => Raise (ValueError "operands could not be broadcast together")
          | Some s =>
              match mapM (λ k, f d (item_at a (unravel s k)) (item_at b (unravel s k)))
                         (seq 0 (size_of s)) with
              | Some items => Ok {| a_dtype := d'; a_shape := s; a_items := items |}
              | None => Raise (ValueError "result outside the reference model")
              end
          end
      end
  end.

Definition ref_sub : ref_array → ref_array → result exn ref_array :=
  ref_zip (λ d, match d with bool_ => None | _ => Some d end)
          (λ _ x y, Some (x - y)%Z).

Definition ref_mul : ref_array → ref_array → result exn ref_array :=
  ref_zip Some (λ d x y, Some (match d with bool_ => Z.min x y | _ => (x * y)%Z end)).

Definition ref_div : ref_array → ref_array → result exn ref_array :=
  ref_zip (λ _, Some float64)
          (λ _ x y, if decide (y = 0%Z) then None
                    else if decide ((x mod y)%Z = 0%Z) then Some (x / y)%Z else None).

Definition ref_neg (a : ref_array) : ref_array :=
  {| a_dtype := a_dtype a; a_shape := a_shape a; a_items := Z.opp <$> a_items a |}.

(** the sum of all items: [a.sum()] *)
Definition ref_sum_all (a : ref_array) : ref_array :=
  {| a_dtype := match a_dtype a with bool_ => int64 | d => d end;
     a_shape := [];
     a_items := [foldr Z.add 0%Z (a_items a)] |}.

Definition then_sum_to (r : result exn ref_array) (s : list nat) : result exn ref_array :=
  match r with
  | Ok g => ref_sum_to g s
  | Raise e => Raise e
  end.

Definition on_two (ins : list ref_array)
    (k : ref_array → ref_array → result exn ref_array) : result exn ref_array :=
  match ins with
  | [a; b] => k a b
  | _ => Raise (TypeError "the operation takes two inputs")
  end.

Definition RefSubtract : OpClass :=
  {| op_scalar_only := false;
     op_forward := λ ins _ _, on_two ins ref_sub;
     op_backward_var := λ ins g index,
       on_two ins (λ a b,
         match index with
         | 0 => ref_sum_to g (a_shape a)
         | _ => ref_sum_to (ref_neg g) (a_shape b)
         end) |}.

Definition RefMultiply : OpClass :=
  {| op_scalar_only := false;
     op_forward := λ ins _ _, on_two ins ref_mul;
     op_backward_var := λ ins g index,
       on_two ins (λ a b,
         match index with
         | 0 => then_sum_to (ref_mul g b) (a_shape a)
         | _ => then_sum_to (ref_mul g a) (a_shape b)
         end) |}.

Definition RefDivide : OpClass :=
  {| op_scalar_only := false;
     op_forward := λ ins _ _, on_two ins ref_div;
     op_backward_var := λ ins g index,
       on_two ins (λ a b,
         match index with
         | 0 => then_sum_to (ref_div g b) (a_shape a)
         | _ =>
             match ref_mul (ref_neg g) a, ref_mul b b with
             | Ok n, Ok d => then_sum_to (ref_div n d) (a_shape b)
             | Raise e, _ | _, Raise e => Raise e
             end
         end) |}.

Definition RefSum : OpClass :=
  {| op_scalar_only := false;
     op_forward := λ ins args _,
       match ins, args with
       | [a], [ArgNone; ArgBool false] => Ok (ref_sum_all a)
       | [_], _ => Raise (ValueError "axis or keepdims outside the reference model")
       | _, _ => Raise (TypeError "Sum takes one input")
       end;
     op_backward_var := λ ins g _,
       match ins with
       | [a] => ref_mul (ref_ones (a_shape a)) g
       | _ => Raise (TypeError "Sum takes one input")
       end |}.

#[export] Instance ref_catalogue : Catalogue :=
  {| Subtract := RefSubtract;
     Multiply := RefMultiply;
     Divide := RefDivide;
     Sum := RefSum;
     np_minus_one := scalar int64 (-1) |}.

(** [x * 4] on [x = Tensor(3)], [-x], [v.sum()] on [v = Tensor([1, 2])],
    [c + 1] on the constant [c], and [x + ['a', 'b']] *)
Definition x_times_four : M nat := Tensor_mul 0 (PyArray (Literal (scalar int64 4))).
Definition minus_x : M nat := Tensor_neg 0.
Definition sum_v : M nat := Tensor_sum 0 ArgNone false.
Definition c_plus_one : M nat :=
  _op Add [PyTensor 0; PyArray (Literal (scalar int64 1))] [] [].

(** an array of strings, [np.asarray(['a', 'b'])], by code points *)
Definition strings_ab : ndarray := vector str_ [97; 98]%Z.

End RefNumPy.

(** What the proofs about [x + x] use of the array library. *)
Class NumPyLaws `{NP : NumPy} : Prop := {
  shape_np_one : shape np_one = [];
  shape_np_ones s : shape (np_ones s) = s;
  number_np_one : issubdtype_number (get_dtype np_one) = true;
  number_np_ones s : issubdtype_number (get_dtype (np_ones s)) = true;
  np_add_same_shape a b :
    issubdtype_number (get_dtype a) = true →
    issubdtype_number (get_dtype b) = true →
    shape a = shape b →
    ∃ c, np_add a b = Ok c ∧ shape c = shape a
         ∧ issubdtype_number (get_dtype c) = true
}.

(** * Properties *)

Section Properties.
Context `{NP : NumPy}.

Ltac run :=
  repeat (progress (unfold Tensor_init, Tensor_copy, np_copy, np_asarray,
            _check_valid_dtype, get_tensor, get_array, get_operation,
            new_tensor, new_array, new_operation, of_option, bind, ret,
            raise, lift in *; simpl in * )).

Lemma lookup_snoc {A} (l : list A) (x : A) : (l ++ [x]) !! length l = Some x.
Proof. by rewrite lookup_app_r, Nat.sub_diag by lia. Qed.

(** ** Construction *)

(** C10: constructing a Tensor from an input that is not a Tensor and whose
    coerced array has a dtype that is not a sub-dtype of np.number raises
    the TypeError of [_check_valid_dtype] (the error the specification
    calls InvalidDataType), at the construction call; no Tensor is made. *)
Theorem Tensor_init_rejects_non_numeric (x : array_like) (constant so : bool)
    (cr : option oid) (h : heap) (v : ndarray) :
  coerced x h = Some v →
  issubdtype_number (get_dtype v) = false →
  ∃ h', Tensor_init (PyArray x) constant so cr h
          = (h', Raise (Exception (TypeError "Tensor data must be a numeric type")))
        ∧ tensors h' = tensors h.
Proof.
  intros Hx Hd. destruct x as [a|w]; simpl in Hx.
  - run. rewrite Hx. simpl. rewrite Hx. simpl. rewrite Hd. simpl. eauto.
  - injection Hx as ->. run. rewrite lookup_snoc. simpl. rewrite Hd. simpl. eauto.
Qed.

(** C3 (amended): constructing a Tensor from an existing Tensor [x] makes
    a new leaf (gradient absent, flags and creator as given) whose data is
    the very array object of [x]: nothing is copied, and an update of the
    array through the new Tensor is seen through [x]. *)
Theorem Tensor_init_from_tensor_shares (x : tid) (X : Tensor)
    (constant so : bool) (cr : option oid) (h : heap) :
  tensors h !! x = Some X →
  ∃ h' T,
    Tensor_init (PyTensor x) constant so cr h = (h', Ok (length (tensors h)))
    ∧ tensors h' = tensors h ++ [T]
    ∧ arrays h' = arrays h
    ∧ T = {| data := data X; grad := None; _constant := constant;
             _scalar_only := so; _creator := cr |}
    ∧ ∀ a v, arrays h !! data X = Some a →
        arrays (array_store (data T) v h') !! data X = Some v.
Proof.
  intros HX. run. rewrite HX. simpl.
  eexists _, _. repeat split; simpl.
  intros a v Ha. apply list_lookup_insert_eq. by eapply lookup_lt_Some.
Qed.

(** C9: [copy(t)] of a Tensor with numeric data is a new Tensor with an
    array of the same value, the same [constant] and [scalar_only], no
    creator and no gradient; its array is another object than the array of
    [t], so that an update of the copy's array leaves the array of [t] as
    it was. *)
Theorem copy_is_detached (t : tid) (T : Tensor) (a : ndarray) (h : heap) :
  tensors h !! t = Some T →
  arrays h !! data T = Some a →
  issubdtype_number (get_dtype a) = true →
  ∃ h' c C,
    Tensor_copy t h = (h', Ok c)
    ∧ tensors h' !! c = Some C
    ∧ tensors h' !! t = Some T
    ∧ arrays h' !! data C = Some a
    ∧ arrays h' !! data T = Some a
    ∧ _constant C = _constant T
    ∧ _scalar_only C = _scalar_only T
    ∧ _creator C = None
    ∧ grad C = None
    ∧ data C ≠ data T
    ∧ ∀ v, arrays (array_store (data C) v h') !! data T = Some a.
Proof.
  intros HT Ha Hd. run. rewrite HT. simpl. rewrite Ha. simpl.
  rewrite lookup_snoc. simpl. rewrite lookup_snoc. simpl. rewrite Hd. simpl.
  pose proof (lookup_lt_Some _ _ _ Ha) as Hlt.
  pose proof (lookup_lt_Some _ _ _ HT) as Hlt'.
  eexists _, _, _. split; [reflexivity|]. simpl.
  split; [apply lookup_snoc|].
  split; [by rewrite lookup_app_l|]. simpl.
  split; [apply lookup_snoc|].
  split; [by rewrite lookup_app_l|].
  do 4 (split; [reflexivity|]).
  split; [lia|].
  intros v. rewrite list_lookup_insert_ne by lia. by rewrite lookup_app_l.
Qed.

(** ** Running computations step by step *)

Lemma bind_Ok {A B} (c : M A) (k : A → M B) h h1 a :
  c h = (h1, Ok a) → bind c k h = k a h1.
Proof. unfold bind. by intros ->. Qed.

Lemma bind_Raise {A B} (c : M A) (k : A → M B) h h1 e :
  c h = (h1, Raise e) → bind c k h = (h1, Raise e).
Proof. unfold bind. by intros ->. Qed.

Lemma bind_Ok_inv {A B} (c : M A) (k : A → M B) h h' b :
  bind c k h = (h', Ok b) → ∃ h1 a, c h = (h1, Ok a) ∧ k a h1 = (h', Ok b).
Proof.
  unfold bind. destruct (c h) as [h1 [a|e]]; [eauto | discriminate].
Qed.

Lemma get_tensor_Some h t T : tensors h !! t = Some T → get_tensor t h = (h, Ok T).
Proof. unfold get_tensor. by intros ->. Qed.

Lemma get_tensor_Ok_inv h h' t T :
  get_tensor t h = (h', Ok T) → h' = h ∧ tensors h !! t = Some T.
Proof.
  unfold get_tensor. destruct (tensors h !! t); simpl; unfold ret, raise; naive_solver.
Qed.

Lemma get_array_Some h a v : arrays h !! a = Some v → get_array a h = (h, Ok v).
Proof. unfold get_array. by intros ->. Qed.

Lemma get_operation_Some h f O :
  operations h !! f = Some O → get_operation f h = (h, Ok O).
Proof. unfold get_operation. by intros ->. Qed.

Lemma traverse_get_tensor vs h h' Vs :
  traverse get_tensor vs h = (h', Ok Vs) →
  h' = h ∧ Forall2 (λ v V, tensors h !! v = Some V) vs Vs.
Proof.
  revert h' Vs. induction vs as [|v vs IH]; intros h' Vs; simpl.
  - unfold ret. intros [= <- <-]. by split.
  - intros H. apply bind_Ok_inv in H as (h1 & V & HV & H).
    apply get_tensor_Ok_inv in HV as [-> HV].
    apply bind_Ok_inv in H as (h2 & Vs' & HVs & H).
    apply IH in HVs as [-> HVs]. unfold ret in H. injection H as <- <-.
    split; [done|]. by constructor.
Qed.

Lemma Tensor_init_Ok_inv x constant so cr h h' t :
  Tensor_init x constant so cr h = (h', Ok t) →
  ∃ d, t = length (tensors h)
       ∧ tensors h' = tensors h ++ [{| data := d; grad := None; _constant := constant;
                                       _scalar_only := so; _creator := cr |}]
       ∧ operations h' = operations h.
Proof.
  unfold Tensor_init. intros H.
  apply bind_Ok_inv in H as (h1 & d & Hd & H).
  unfold new_tensor in H. injection H as <- <-.
  assert (tensors h1 = tensors h ∧ operations h1 = operations h) as [-> ->];
    [|by eexists].
  destruct x as [u|[a|v]].
  - apply bind_Ok_inv in Hd as (h2 & U & HU & Hd).
    apply get_tensor_Ok_inv in HU as [-> _]. unfold ret in Hd. by injection Hd as <- <-.
  - run. repeat case_match; simplify_eq; done.
  - run. repeat case_match; simplify_eq; done.
Qed.

Lemma coerce_Ok_inv x h h1 v :
  coerce x h = (h1, Ok v) →
  tensors h `prefix_of` tensors h1
  ∧ match x with
    | PyTensor u => v = u
    | PyArray _ => ∃ V, tensors h1 !! v = Some V ∧ _constant V = true
                        ∧ _creator V = None ∧ grad V = None
    end.
Proof.
  destruct x as [u|y]; simpl.
  - unfold ret. by intros [= <- <-].
  - intros H. apply Tensor_init_Ok_inv in H as (d & -> & Ht & _).
    split; [rewrite Ht; by apply prefix_app_r|].
    eexists. rewrite Ht, lookup_snoc. done.
Qed.

Lemma traverse_coerce_Ok_inv xs h h1 vs :
  traverse coerce xs h = (h1, Ok vs) →
  tensors h `prefix_of` tensors h1
  ∧ Forall2 (λ x v, match x with
                    | PyTensor u => v = u
                    | PyArray _ => ∃ V, tensors h1 !! v = Some V ∧ _constant V = true
                                        ∧ _creator V = None ∧ grad V = None
                    end) xs vs.
Proof.
  revert h vs. induction xs as [|x xs IH]; intros h vs; simpl.
  - unfold ret. intros [= <- <-]. by split.
  - intros H. apply bind_Ok_inv in H as (ha & v & Hv & H).
    apply bind_Ok_inv in H as (hb & vs' & Hvs & H).
    unfold ret in H. injection H as <- <-.
    apply coerce_Ok_inv in Hv as [Hpre Hv]. apply IH in Hvs as [Hpre' Hvs].
    split; [by etrans|]. constructor; [|done].
    destruct x as [u|y]; [done|]. destruct Hv as (V & HV & ?).
    exists V. split; [|done]. by eapply prefix_lookup_Some.
Qed.

Lemma reads_ret {A} (a : A) : reads (ret a).
Proof. intros h h' r. unfold ret. by intros [= <- <-]. Qed.

Lemma reads_dangling {A} : reads (raise (A:=A) DanglingReference).
Proof. intros h h' r. unfold raise. by intros [= <- <-]. Qed.

Lemma reads_lift {A} (q : result exn A) : reads (lift q).
Proof. intros h h' r. unfold lift. intros [= <- <-]. by destruct q. Qed.

Lemma reads_bind {A B} (c : M A) (k : A → M B) :
  reads c → (∀ a, reads (k a)) → reads (bind c k).
Proof.
  intros Hc Hk h h' r. unfold bind.
  destruct (c h) as [h1 [a|e]] eqn:E; apply Hc in E as [-> He].
  - apply Hk.
  - intros [= <- <-]. split; [done|]. congruence.
Qed.

Lemma reads_get_tensor t : reads (get_tensor t).
Proof.
  intros h h' r. unfold get_tensor.
  destruct (tensors h !! t); [apply reads_ret | apply reads_dangling].
Qed.

Lemma reads_get_array a : reads (get_array a).
Proof.
  intros h h' r. unfold get_array.
  destruct (arrays h !! a); [apply reads_ret | apply reads_dangling].
Qed.

Lemma reads_get_operation f : reads (get_operation f).
Proof.
  intros h h' r. unfold get_operation.
  destruct (operations h !! f); [apply reads_ret | apply reads_dangling].
Qed.

Lemma reads_traverse {A B} (f : A → M B) l :
  (∀ x, reads (f x)) → reads (traverse f l).
Proof.
  intros Hf. induction l as [|x l IH]; simpl; [apply reads_ret|].
  apply reads_bind; [done|]. intros y.
  apply reads_bind; [done|]. intros ys. apply reads_ret.
Qed.

Lemma reads_input_arrays vars : reads (input_arrays vars).
Proof.
  apply reads_traverse. intros v. apply reads_bind; [apply reads_get_tensor|].
  intros T. apply reads_get_array.
Qed.

Lemma reads_incoming g : reads (incoming g).
Proof.
  destruct g as [t|[a|v]]; simpl.
  - apply reads_bind; [apply reads_get_tensor|]. intros T. apply reads_get_array.
  - apply reads_get_array.
  - apply reads_ret.
Qed.

Lemma Operation_call_tensors f vs args kwargs h h' r :
  Operation_call f vs args kwargs h = (h', r) → tensors h' = tensors h.
Proof.
  unfold Operation_call. unfold bind at 1.
  destruct (set_variables f vs h) as [h1 q] eqn:E1.
  assert (tensors h1 = tensors h) as <-.
  { unfold set_variables, bind in E1.
    destruct (get_operation f h) as [h0 [O|e]] eqn:E0;
      apply reads_get_operation in E0 as [-> _]; by injection E1 as <- _. }
  destruct q as [[]|e]; [|by intros [= <- _]].
  unfold bind at 1.
  destruct (get_operation f h1) as [h2 [O|e]] eqn:E2;
    apply reads_get_operation in E2 as [-> _]; [|by intros [= <- _]].
  unfold bind at 1.
  destruct (input_arrays vs h1) as [h3 [ins|e]] eqn:E3;
    apply reads_input_arrays in E3 as [-> _]; [|by intros [= <- _]].
  unfold bind, lift, new_array.
  destruct (op_forward _ _ _ _); by intros [= <- _].
Qed.

Lemma scalar_only_loop_spec init Vs :
  scalar_only_loop init Vs
  = init || existsb (λ V, _scalar_only V && negb (_constant V)) Vs.
Proof.
  unfold scalar_only_loop. revert init.
  induction Vs as [|V Vs IH]; intros init; simpl.
  - by rewrite orb_false_r.
  - by rewrite IH, orb_assoc.
Qed.

(** What a successful [_op] did. *)
Lemma _op_Ok_inv Op input_vars op_args op_kwargs h h' t :
  _op Op input_vars op_args op_kwargs h = (h', Ok t) →
  ∃ h1 vs Vs T,
    traverse coerce input_vars h = (h1, Ok vs)
    ∧ Forall2 (λ v V, tensors h1 !! v = Some V) vs Vs
    ∧ tensors h' = tensors h1 ++ [T]
    ∧ t = length (tensors h1)
    ∧ grad T = None
    ∧ _creator T = Some (length (operations h1))
    ∧ _constant T = forallb _constant Vs
    ∧ _scalar_only T
      = scalar_only_loop (op_scalar_only Op && negb (forallb _constant Vs)) Vs.
Proof.
  unfold _op. intros H. apply bind_Ok_inv in H as (h1 & vs & Hvs & H).
  unfold _op_core in H.
  apply bind_Ok_inv in H as (h2 & f & Hf & H).
  unfold new_operation in Hf. injection Hf as <- <-.
  apply bind_Ok_inv in H as (h3 & out & Hout & H).
  apply Operation_call_tensors in Hout. simpl in Hout.
  apply bind_Ok_inv in H as (h4 & Vs & HVs & H).
  apply traverse_get_tensor in HVs as [-> HVs]. rewrite Hout in HVs.
  apply Tensor_init_Ok_inv in H as (d & -> & Ht & _). rewrite Hout in Ht.
  exists h1, vs, Vs. eexists. rewrite Hout.
  split; [done|]. split; [done|]. split; [exact Ht|]. done.
Qed.

(** ** The flags of the result of [_op] *)

(** C4: when [_op] returns a Tensor, its [scalar_only] flag is
    ([f.scalar_only] and not [is_const]) or (some coerced input is
    [scalar_only] and not constant), where [is_const] is the conjunction of
    the [constant] flags of the coerced inputs. *)
Theorem op_result_scalar_only Op input_vars op_args op_kwargs h h' t :
  _op Op input_vars op_args op_kwargs h = (h', Ok t) →
  ∃ h1 vs Vs T,
    traverse coerce input_vars h = (h1, Ok vs)
    ∧ Forall2 (λ v V, tensors h1 !! v = Some V) vs Vs
    ∧ tensors h' !! t = Some T
    ∧ let is_const := forallb _constant Vs in
      _scalar_only T
      = (op_scalar_only Op && negb is_const)
        || existsb (λ V, _scalar_only V && negb (_constant V)) Vs.
Proof.
  intros H. apply _op_Ok_inv in H
    as (h1 & vs & Vs & T & Hvs & HVs & Ht & -> & _ & _ & _ & Hso).
  exists h1, vs, Vs, T. repeat split; [done..| |].
  - rewrite Ht. apply lookup_snoc.
  - simpl. by rewrite Hso, scalar_only_loop_spec.
Qed.

(** C5: when [_op] returns a Tensor, its [constant] flag is the
    conjunction of the [constant] flags of the coerced inputs, where every
    input that was not a Tensor has been replaced by a new constant leaf
    Tensor and every input that was a Tensor is that Tensor. *)
Theorem op_result_constant Op input_vars op_args op_kwargs h h' t :
  _op Op input_vars op_args op_kwargs h = (h', Ok t) →
  ∃ h1 vs Vs T,
    traverse coerce input_vars h = (h1, Ok vs)
    ∧ Forall2 (λ v V, tensors h1 !! v = Some V) vs Vs
    ∧ tensors h' !! t = Some T
    ∧ _constant T = forallb _constant Vs
    ∧ Forall2 (λ x v, ∀ u, x = PyTensor u → v = u) input_vars vs
    ∧ Forall2 (λ x V, ∀ y, x = PyArray y →
                 _constant V = true ∧ _creator V = None ∧ grad V = None)
              input_vars Vs.
Proof.
  intros H. apply _op_Ok_inv in H
    as (h1 & vs & Vs & T & Hvs & HVs & Ht & -> & _ & _ & Hc & _).
  exists h1, vs, Vs, T. split; [done|]. split; [done|].
  split; [rewrite Ht; apply lookup_snoc|]. split; [done|].
  apply traverse_coerce_Ok_inv in Hvs as [_ Hvs]. split.
  - eapply Forall2_impl; [exact Hvs|]. intros x v Hx u ->. done.
  - clear Ht Hc. revert Vs HVs.
    induction Hvs as [|x v xs vs Hx _ IH]; intros Vs HVs;
      inversion HVs as [|? V ? Vs' HV HVs']; subst; constructor; [|by apply IH].
    intros y ->. destruct Hx as (V' & HV' & ?). by simplify_eq.
Qed.

(** ** Heaps that differ in gradient buffers only *)

Lemma same_node_refl T : same_node T T.
Proof. by repeat split. Qed.

Lemma same_node_trans T1 T2 T3 : same_node T1 T2 → same_node T2 T3 → same_node T1 T3.
Proof. unfold same_node. intros (?&?&?&?) (?&?&?&?). repeat split; congruence. Qed.

Lemma same_node_with_grad g T : same_node T (with_grad g T).
Proof. by repeat split. Qed.

Lemma same_graph_refl h : same_graph h h.
Proof.
  repeat split. apply Forall2_same_length_lookup_2; [done|].
  intros i T T' ? ?. simplify_eq. apply same_node_refl.
Qed.

Lemma same_graph_trans h1 h2 h3 :
  same_graph h1 h2 → same_graph h2 h3 → same_graph h1 h3.
Proof.
  intros (Ha & Ho & Ht) (Ha' & Ho' & Ht'). repeat split; [congruence..|].
  eapply Forall2_trans; [|exact Ht|exact Ht'].
  intros ???. apply same_node_trans.
Qed.

Lemma same_graph_sym h h' : same_graph h h' → same_graph h' h.
Proof.
  intros (Ha & Ho & Ht). repeat split; [done..|].
  apply Forall2_flip. eapply Forall2_impl; [exact Ht|].
  unfold same_node, flip. intros T T' (?&?&?&?). done.
Qed.

Lemma same_graph_length h h' : same_graph h h' → length (tensors h') = length (tensors h).
Proof. intros (_ & _ & Ht). symmetry. by eapply Forall2_length. Qed.

Lemma same_graph_lookup h h' t T :
  same_graph h h' → tensors h !! t = Some T →
  ∃ T', tensors h' !! t = Some T' ∧ same_node T T'.
Proof. intros (_ & _ & Ht) HT. by eapply Forall2_lookup_l. Qed.

Lemma same_graph_lookup_r h h' t T' :
  same_graph h h' → tensors h' !! t = Some T' →
  ∃ T, tensors h !! t = Some T ∧ same_node T T'.
Proof. intros (_ & _ & Ht) HT. by eapply Forall2_lookup_r. Qed.

Lemma well_formed_same_graph h h' : same_graph h h' → well_formed h → well_formed h'.
Proof.
  intros Hs Hwf t T' HT'.
  destruct (same_graph_lookup_r _ _ _ _ Hs HT') as (T & HT & Hd & _ & _ & Hc).
  destruct Hs as (Ha & Ho & _). destruct (Hwf t T HT) as [Hdata Hcr].
  rewrite Ha, Ho, Hd, Hc. done.
Qed.

Lemma upstream_same_graph h h' t u : same_graph h h' → upstream h t u → upstream h' t u.
Proof.
  intros Hs. induction 1 as [t|t T f O v u HT Hc HO Hv _ IH]; [constructor|].
  destruct (same_graph_lookup _ _ _ _ Hs HT) as (T' & HT' & _ & _ & _ & Hc').
  destruct Hs as (_ & Ho & _).
  apply (upstream_input h' t T' f O v u); [exact HT' | congruence | by rewrite Ho | exact Hv | exact IH].
Qed.

Lemma set_grad_Some h t T g :
  tensors h !! t = Some T →
  set_grad t g h
  = ({| arrays := arrays h; tensors := <[t := with_grad g T]> (tensors h);
        operations := operations h |}, Ok tt).
Proof.
  intros HT. unfold set_grad. by rewrite (bind_Ok _ _ _ _ _ (get_tensor_Some _ _ _ HT)).
Qed.

Lemma same_graph_set_grad h t T g :
  tensors h !! t = Some T →
  same_graph h {| arrays := arrays h; tensors := <[t := with_grad g T]> (tensors h);
                  operations := operations h |}.
Proof.
  intros HT. repeat split. simpl.
  apply Forall2_same_length_lookup_2; [by rewrite length_insert|].
  intros i U U' HU HU'. destruct (decide (i = t)) as [->|Hne].
  - rewrite list_lookup_insert_eq in HU' by (by eapply lookup_lt_Some).
    simplify_eq. apply same_node_with_grad.
  - rewrite list_lookup_insert_ne in HU' by done. simplify_eq. apply same_node_refl.
Qed.

Lemma upstream_leaf h t T u :
  tensors h !! t = Some T → _creator T = None → upstream h t u → u = t.
Proof. intros HT Hc. inversion 1; simplify_eq; done. Qed.

Lemma upstream_inv h t T f O u :
  tensors h !! t = Some T → _creator T = Some f → operations h !! f = Some O →
  upstream h t u → u = t ∨ ∃ v, v ∈ variables O ∧ upstream h v u.
Proof. intros HT Hc HO. inversion 1; simplify_eq; eauto. Qed.

(** ** Gradient reset *)

Lemma cleared_refl h : cleared h h.
Proof. split; [apply same_graph_refl | auto]. Qed.

Lemma cleared_trans h1 h2 h3 : cleared h1 h2 → cleared h2 h3 → cleared h1 h3.
Proof.
  intros [Hs Hd] [Hs' Hd']. split; [by eapply same_graph_trans|].
  intros t T HT. destruct (Hd' t T HT) as [?|HT2]; [by left|]. by apply Hd.
Qed.

Lemma cleared_absent h h' u :
  cleared h h' → grad_of h u = Some None → grad_of h' u = Some None.
Proof.
  intros [Hs Hd]. unfold grad_of. intros Hu.
  destruct (tensors h !! u) as [U|] eqn:HU; [|done].
  destruct (same_graph_lookup _ _ _ _ Hs HU) as (U' & HU' & _).
  rewrite HU'. simpl. destruct (Hd u U' HU') as [->|HU2]; [done|].
  simplify_eq. done.
Qed.

Lemma cleared_set_grad h t T :
  tensors h !! t = Some T →
  cleared h {| arrays := arrays h; tensors := <[t := with_grad None T]> (tensors h);
               operations := operations h |}.
Proof.
  intros HT. split; [by apply same_graph_set_grad|]. simpl.
  intros u U' HU'. destruct (decide (u = t)) as [->|Hne].
  - rewrite list_lookup_insert_eq in HU' by (by eapply lookup_lt_Some).
    simplify_eq. by left.
  - rewrite list_lookup_insert_ne in HU' by done. by right.
Qed.

Section null_gradients_step.
Variable n : nat.
Hypothesis IH : ∀ t h,
  well_formed h → t < n → t < length (tensors h) →
  ∃ h', Tensor_null_gradients n t h = (h', Ok tt) ∧ cleared h h'
        ∧ ∀ u, upstream h t u → grad_of h' u = Some None.

Lemma null_gradients_inputs vars i h :
  well_formed h →
  Forall (λ v, v < n ∧ v < length (tensors h)) vars →
  ∃ h', for_each (λ _ var, Tensor_null_gradients n var) i vars h = (h', Ok tt)
        ∧ cleared h h'
        ∧ ∀ v u, v ∈ vars → upstream h v u → grad_of h' u = Some None.
Proof.
  revert i h. induction vars as [|v vars IHvars]; intros i h Hwf Hvars.
  - exists h. split; [done|]. split; [apply cleared_refl|].
    intros v u Hv. by apply not_elem_of_nil in Hv.
  - apply Forall_cons in Hvars as [[Hvn Hvl] Hvars].
    destruct (IH v h Hwf Hvn Hvl) as (h1 & Hrun & Hc1 & Hup1).
    destruct (IHvars (S i) h1) as (h' & Hrun' & Hc' & Hup').
    { eapply well_formed_same_graph; [apply Hc1 | done]. }
    { rewrite (same_graph_length _ _ (proj1 Hc1)). done. }
    exists h'. split; [simpl; by rewrite (bind_Ok _ _ _ _ _ Hrun)|].
    split; [by eapply cleared_trans|].
    intros v0 u Hv0 Hu. apply elem_of_cons in Hv0 as [->|Hv0].
    + eapply cleared_absent; [exact Hc'|]. by apply Hup1.
    + eapply Hup'; [exact Hv0|]. eapply upstream_same_graph; [apply Hc1 | done].
Qed.
End null_gradients_step.

Lemma null_gradients_run n : ∀ t h,
  well_formed h → t < n → t < length (tensors h) →
  ∃ h', Tensor_null_gradients n t h = (h', Ok tt) ∧ cleared h h'
        ∧ ∀ u, upstream h t u → grad_of h' u = Some None.
Proof.
  induction n as [|n IH]; intros t h Hwf Hn Hl; [lia|].
  destruct (lookup_lt_is_Some_2 _ _ Hl) as [T HT].
  set (h0 := {| arrays := arrays h; tensors := <[t := with_grad None T]> (tensors h);
                operations := operations h |}).
  pose proof (cleared_set_grad h t T HT) as Hc0. fold h0 in Hc0.
  assert (HT0 : tensors h0 !! t = Some (with_grad None T)).
  { simpl. by apply list_lookup_insert_eq. }
  assert (Ht0 : grad_of h0 t = Some None) by (unfold grad_of; by rewrite HT0).
  assert (Hwf0 : well_formed h0).
  { eapply well_formed_same_graph; [apply Hc0 | done]. }
  simpl. rewrite (bind_Ok _ _ _ _ _ (set_grad_Some _ _ _ None HT)). fold h0.
  rewrite (bind_Ok _ _ _ _ _ (get_tensor_Some _ _ _ HT0)). simpl.
  destruct (_creator T) as [f|] eqn:Hcr.
  - destruct (Hwf t T HT) as [_ Hf]. destruct (Hf f Hcr) as (O & HO & Hvars).
    unfold Operation_null_gradients.
    rewrite (bind_Ok _ _ _ _ _ (get_operation_Some h0 f O HO)).
    destruct (null_gradients_inputs n IH (variables O) 0 h0 Hwf0)
      as (h' & Hrun & Hc & Hup).
    { eapply Forall_impl; [exact Hvars|]. simpl. intros v Hv.
      rewrite length_insert. lia. }
    exists h'. split; [done|]. split; [by eapply cleared_trans|].
    intros u Hu.
    destruct (upstream_inv _ _ _ _ _ _ HT Hcr HO Hu) as [->|(v & Hv & Hvu)].
    + by eapply cleared_absent.
    + eapply Hup; [exact Hv|]. eapply upstream_same_graph; [apply Hc0 | done].
  - exists h0. split; [done|]. split; [done|].
    intros u Hu. by rewrite (upstream_leaf _ _ _ _ HT Hcr Hu).
Qed.

Lemma heap_eta h :
  {| arrays := arrays h; tensors := tensors h; operations := operations h |} = h.
Proof. by destruct h. Qed.

Lemma with_grad_id T : with_grad (grad T) T = T.
Proof. by destruct T. Qed.

(** On a graph whose buffers are all absent the reset changes nothing. *)
Lemma null_gradients_fixed n : ∀ t h,
  well_formed h → t < n → t < length (tensors h) →
  (∀ u, upstream h t u → grad_of h u = Some None) →
  Tensor_null_gradients n t h = (h, Ok tt).
Proof.
  induction n as [|n IH]; intros t h Hwf Hn Hl Hnone; [lia|].
  destruct (lookup_lt_is_Some_2 _ _ Hl) as [T HT].
  assert (HgT : grad T = None).
  { specialize (Hnone t (upstream_here h t)). unfold grad_of in Hnone.
    rewrite HT in Hnone. by injection Hnone. }
  simpl. rewrite (bind_Ok _ _ _ _ _ (set_grad_Some _ _ _ None HT)).
  rewrite <- HgT, with_grad_id, list_insert_id, heap_eta by done.
  rewrite (bind_Ok _ _ _ _ _ (get_tensor_Some _ _ _ HT)).
  destruct (_creator T) as [f|] eqn:Hcr; [|done].
  destruct (Hwf t T HT) as [_ Hf]. destruct (Hf f Hcr) as (O & HO & Hvars).
  unfold Operation_null_gradients.
  rewrite (bind_Ok _ _ _ _ _ (get_operation_Some h f O HO)).
  assert (Hin : ∀ v, v ∈ variables O → v < t ∧ ∀ u, upstream h v u → grad_of h u = Some None).
  { intros v Hv. split; [by eapply Forall_forall in Hvars|].
    intros u Hu. apply Hnone. by eapply upstream_input. }
  clear Hvars. generalize 0 as i. induction (variables O) as [|v vars IHvars]; intros i; [done|].
  simpl. destruct (Hin v) as [Hvt Hv]; [by left|].
  rewrite (bind_Ok _ _ h h tt); [|apply IH; [done|lia|lia|done]].
  apply IHvars. intros w Hw. apply Hin. by right.
Qed.

(** C8: on a well-formed graph, [t.null_gradients()] returns without an
    error; afterwards the gradient buffer of [t] and of every Tensor
    upstream of [t] is absent, whether the Tensor is constant or not, and
    only gradient buffers have changed; a second call changes nothing; and
    on a graph whose upstream buffers are already absent the call changes
    nothing. *)
Theorem null_gradients_clears_upstream fuel (t : tid) (h : heap) :
  well_formed h →
  t < length (tensors h) →
  t < fuel →
  ∃ h',
    Tensor_null_gradients fuel t h = (h', Ok tt)
    ∧ grad_of h' t = Some None
    ∧ (∀ u, upstream h t u → grad_of h' u = Some None)
    ∧ same_graph h h'
    ∧ Tensor_null_gradients fuel t h' = (h', Ok tt)
    ∧ ((∀ u, upstream h t u → grad_of h u = Some None) → h' = h).
Proof.
  intros Hwf Hl Hn.
  destruct (null_gradients_run fuel t h Hwf Hn Hl) as (h' & Hrun & Hc & Hup).
  exists h'. split; [done|]. split; [apply Hup; constructor|].
  split; [done|]. split; [apply Hc|]. split.
  - apply null_gradients_fixed; [|done| |].
    + eapply well_formed_same_graph; [apply Hc | done].
    + by rewrite (same_graph_length _ _ (proj1 Hc)).
    + intros u Hu. apply Hup.
      eapply upstream_same_graph; [apply same_graph_sym, Hc | done].
  - intros Hnone.
    rewrite (null_gradients_fixed fuel t h Hwf Hn Hl Hnone) in Hrun.
    by injection Hrun.
Qed.

(** ** Back-propagation *)

Lemma touched_below_refl t h : touched_below t h h.
Proof. split; [apply same_graph_refl | done]. Qed.

Lemma touched_below_trans t h1 h2 h3 :
  touched_below t h1 h2 → touched_below t h2 h3 → touched_below t h1 h3.
Proof.
  intros [Hs Hf] [Hs' Hf']. split; [by eapply same_graph_trans|].
  intros u Hu. by rewrite Hf', Hf.
Qed.

Lemma touched_below_mono t t' h h' :
  t ≤ t' → touched_below t h h' → touched_below t' h h'.
Proof. intros Hle [Hs Hf]. split; [done|]. intros u Hu. apply Hf. lia. Qed.

Lemma touched_below_set_grad h t T g :
  tensors h !! t = Some T →
  touched_below (S t)
    h {| arrays := arrays h; tensors := <[t := with_grad g T]> (tensors h);
         operations := operations h |}.
Proof.
  intros HT. split; [by apply same_graph_set_grad|]. simpl.
  intros u Hu. apply list_lookup_insert_ne. lia.
Qed.

Lemma reads_seed_of T g : reads (seed_of T g).
Proof.
  destruct g as [gr|]; simpl; [apply reads_incoming|].
  apply reads_bind; [apply reads_get_array|]. intros d. apply reads_ret.
Qed.

Lemma Tensor_backward_S n t g :
  Tensor_backward (S n) t g
  = (T <- get_tensor t ;;
     gv <- seed_of T g ;;
     new <- lift (accumulate (grad T) gv) ;;
     set_grad t (Some new) ;;;
     match _creator T with
     | Some f => Operation_backward (Tensor_backward n) f gv
     | None => ret tt
     end).
Proof. reflexivity. Qed.

Lemma Operation_backward_eq backward f g :
  Operation_backward backward f g
  = (O <- get_operation f ;;
     ins <- input_arrays (variables O) ;;
     for_each (backward_body backward (op_backward_var (op_class O) ins g))
              0 (variables O)).
Proof. reflexivity. Qed.

Lemma for_each_cons {A} (body : nat → A → M unit) i x l :
  for_each body i (x :: l) = (body i x ;;; for_each body (S i) l).
Proof. reflexivity. Qed.

Lemma bind_reads {A B} (c : M A) (k : A → M B) h :
  reads c →
  (∃ a, c h = (h, Ok a) ∧ bind c k h = k a h)
  ∨ (∃ e, e ≠ OutOfFuel ∧ c h = (h, Raise e) ∧ bind c k h = (h, Raise e)).
Proof.
  intros Hc. unfold bind. destruct (c h) as [h1 [a|e]] eqn:E;
    apply Hc in E as [-> He]; [left | right]; eauto.
  exists e. split; [congruence | done].
Qed.

Lemma lift_Ok_inv {A} (q : result exn A) h h' a : lift q h = (h', Ok a) → q = Ok a.
Proof. unfold lift. destruct q; naive_solver. Qed.

Lemma lift_Raise_inv {A} (q : result exn A) h h' e :
  lift q h = (h', Raise e) → ∃ e', q = Raise e' ∧ e = Exception e'.
Proof. unfold lift. destruct q; naive_solver. Qed.

Section backward_step.
Variable n : nat.
Hypothesis IH : ∀ t g h,
  well_formed h → t < n →
  ∃ h' r, Tensor_backward n t g h = (h', r) ∧ r ≠ Raise OutOfFuel
          ∧ touched_below (S t) h h'.

Lemma backward_body_frame contribution i v t h :
  well_formed h → t ≤ n → v < t →
  ∃ h' r, backward_body (Tensor_backward n) contribution i v h = (h', r)
          ∧ r ≠ Raise OutOfFuel ∧ touched_below t h h'.
Proof.
  intros Hwf Htn Hv. unfold backward_body.
  destruct (bind_reads (lift (contribution i))
              (λ contrib, T <- get_tensor v ;;
                 if _constant T then ret tt
                 else Tensor_backward n v (Some (PyArray (Literal contrib)))) h
              (reads_lift _)) as [(contrib & _ & ->)|(e & He & _ & ->)].
  2:{ eexists _, _. split; [done|]. split; [congruence|]. apply touched_below_refl. }
  destruct (bind_reads (get_tensor v)
              (λ T, if _constant T then ret tt
                    else Tensor_backward n v (Some (PyArray (Literal contrib)))) h
              (reads_get_tensor _)) as [(V & _ & ->)|(e & He & _ & ->)].
  2:{ eexists _, _. split; [done|]. split; [congruence|]. apply touched_below_refl. }
  destruct (_constant V).
  { eexists _, _. split; [done|]. split; [done|]. apply touched_below_refl. }
  destruct (IH v (Some (PyArray (Literal contrib))) h Hwf) as (h1 & r1 & H1 & ? & ?);
    [lia|].
  exists h1, r1. split; [done|]. split; [done|].
  eapply touched_below_mono; [|done]. lia.
Qed.

Lemma backward_inputs contribution vars i t h :
  well_formed h → t ≤ n → Forall (λ v, v < t) vars →
  ∃ h' r, for_each (backward_body (Tensor_backward n) contribution) i vars h = (h', r)
          ∧ r ≠ Raise OutOfFuel ∧ touched_below t h h'.
Proof.
  intros Hwf Htn. revert i h Hwf.
  induction vars as [|v vars IHvars]; intros i h Hwf Hvars.
  - exists h, (Ok tt). split; [done|]. split; [done|]. apply touched_below_refl.
  - apply Forall_cons in Hvars as [Hv Hvars].
    destruct (backward_body_frame contribution i v t h Hwf Htn Hv)
      as (h1 & r1 & Hbody & Hr1 & Ht1).
    rewrite for_each_cons. destruct r1 as [[]|e].
    + rewrite (bind_Ok _ _ _ _ _ Hbody).
      destruct (IHvars (S i) h1) as (h' & r & Hrun & Hr & Ht');
        [eapply well_formed_same_graph; [apply Ht1 | done] | done |].
      exists h', r. split; [done|]. split; [done|]. by eapply touched_below_trans.
    + rewrite (bind_Raise _ _ _ _ _ Hbody). exists h1, (Raise e). done.
Qed.

Lemma Operation_backward_frame f g t T h :
  well_formed h → t ≤ n → tensors h !! t = Some T → _creator T = Some f →
  ∃ h' r, Operation_backward (Tensor_backward n) f g h = (h', r)
          ∧ r ≠ Raise OutOfFuel ∧ touched_below t h h'.
Proof.
  intros Hwf Htn HT Hcr.
  destruct (Hwf t T HT) as [_ Hf]. destruct (Hf f Hcr) as (O & HO & Hvars).
  rewrite Operation_backward_eq.
  rewrite (bind_Ok _ _ _ _ _ (get_operation_Some h f O HO)).
  destruct (bind_reads (input_arrays (variables O))
              (λ ins, for_each (backward_body (Tensor_backward n)
                                  (op_backward_var (op_class O) ins g))
                               0 (variables O)) h
              (reads_input_arrays _)) as [(ins & _ & ->)|(e & He & _ & ->)].
  - by apply backward_inputs.
  - exists h, (Raise e). split; [done|]. split; [congruence|]. apply touched_below_refl.
Qed.
End backward_step.

(** What the first steps of [t.backward(g)] do, and that the calls it
    makes leave [t] alone. *)
Lemma Tensor_backward_step n t T g h :
  (∀ u g' h0, well_formed h0 → u < n →
     ∃ h' r, Tensor_backward n u g' h0 = (h', r) ∧ r ≠ Raise OutOfFuel
             ∧ touched_below (S u) h0 h') →
  well_formed h → t ≤ n → tensors h !! t = Some T →
  (∃ e, e ≠ OutOfFuel ∧ Tensor_backward (S n) t g h = (h, Raise e)
        ∧ (seed_of T g h = (h, Raise e)
           ∨ ∃ gv e', seed_of T g h = (h, Ok gv) ∧ accumulate (grad T) gv = Raise e'
                      ∧ e = Exception e'))
  ∨ (∃ gv new h' r,
       seed_of T g h = (h, Ok gv) ∧ accumulate (grad T) gv = Ok new
       ∧ Tensor_backward (S n) t g h = (h', r) ∧ r ≠ Raise OutOfFuel
       ∧ touched_below (S t) h h'
       ∧ tensors h' !! t = Some (with_grad (Some new) T)
       ∧ (_creator T = None →
          r = Ok tt
          ∧ h' = {| arrays := arrays h;
                    tensors := <[t := with_grad (Some new) T]> (tensors h);
                    operations := operations h |})).
Proof.
  intros IH Hwf Htn HT. rewrite Tensor_backward_S.
  rewrite (bind_Ok _ _ _ _ _ (get_tensor_Some _ _ _ HT)).
  destruct (bind_reads (seed_of T g)
              (λ gv, new <- lift (accumulate (grad T) gv) ;;
                 set_grad t (Some new) ;;;
                 match _creator T with
                 | Some f => Operation_backward (Tensor_backward n) f gv
                 | None => ret tt
                 end) h (reads_seed_of _ _)) as [(gv & Hgv & ->)|(e & He & Hgv & ->)].
  2:{ left. exists e. auto. }
  destruct (bind_reads (lift (accumulate (grad T) gv))
              (λ new, set_grad t (Some new) ;;;
                 match _creator T with
                 | Some f => Operation_backward (Tensor_backward n) f gv
                 | None => ret tt
                 end) h (reads_lift _)) as [(new & Hacc & ->)|(e & He & Hacc & ->)].
  2:{ left. exists e. split; [done|]. split; [done|]. right.
      apply lift_Raise_inv in Hacc as (e' & ? & ?). eauto. }
  apply lift_Ok_inv in Hacc.
  right. exists gv, new.
  rewrite (bind_Ok _ _ _ _ _ (set_grad_Some _ _ _ (Some new) HT)).
  set (h0 := {| arrays := arrays h; tensors := <[t := with_grad (Some new) T]> (tensors h);
                operations := operations h |}).
  pose proof (touched_below_set_grad h t T (Some new) HT) as Ht0. fold h0 in Ht0.
  assert (HT0 : tensors h0 !! t = Some (with_grad (Some new) T)).
  { simpl. apply list_lookup_insert_eq. by eapply lookup_lt_Some. }
  destruct (_creator T) as [f|] eqn:Hcr.
  - destruct (Operation_backward_frame n IH f gv t (with_grad (Some new) T) h0)
      as (h' & r & Hrun & Hr & Ht'); [|done|done|done|].
    { eapply well_formed_same_graph; [apply Ht0 | done]. }
    exists h', r. do 4 (split; [done|]). split.
    { eapply touched_below_trans; [exact Ht0|]. eapply touched_below_mono; [|done]. lia. }
    split; [|done]. destruct Ht' as [_ Hf]. by rewrite Hf.
  - exists h0, (Ok tt). do 6 (split; [done|]). done.
Qed.

Lemma Tensor_backward_frame n : ∀ t g h,
  well_formed h → t < n →
  ∃ h' r, Tensor_backward n t g h = (h', r) ∧ r ≠ Raise OutOfFuel
          ∧ touched_below (S t) h h'.
Proof.
  induction n as [|n IH]; intros t g h Hwf Hn; [lia|].
  destruct (tensors h !! t) as [T|] eqn:HT.
  - destruct (Tensor_backward_step n t T g h IH Hwf) as
      [(e & He & -> & _)|(gv & new & h' & r & _ & _ & -> & Hr & Ht & _)]; [lia|done| |].
    + eexists _, _. split; [done|]. split; [congruence|]. apply touched_below_refl.
    + by exists h', r.
  - rewrite Tensor_backward_S. unfold bind, get_tensor. rewrite HT. simpl.
    eexists _, _. split; [done|]. split; [done|]. apply touched_below_refl.
Qed.

(** [t.backward()] on a leaf without a gradient returns and stores the
    seed, whatever the flags [constant] and [scalar_only] of the Tensor:
    neither is read. *)
Lemma backward_leaf_unguarded n t T d h :
  tensors h !! t = Some T →
  arrays h !! data T = Some d →
  grad T = None →
  _creator T = None →
  Tensor_backward (S n) t None h
  = ({| arrays := arrays h;
        tensors := <[t := with_grad (Some (default_seed d)) T]> (tensors h);
        operations := operations h |}, Ok tt).
Proof.
  intros HT Hd Hg Hc. rewrite Tensor_backward_S.
  rewrite (bind_Ok _ _ _ _ _ (get_tensor_Some _ _ _ HT)).
  rewrite (bind_Ok _ _ h h (default_seed d)).
  2:{ simpl. by rewrite (bind_Ok _ _ _ _ _ (get_array_Some _ _ _ Hd)). }
  rewrite Hg. rewrite (bind_Ok _ _ h h (default_seed d)) by done.
  rewrite (bind_Ok _ _ _ _ _ (set_grad_Some _ _ _ _ HT)). by rewrite Hc.
Qed.

(** C7: take a Tensor [t] that is not [scalar_only], on a well-formed
    graph and with enough call depth, and let [seed] be the scalar 1 when
    [t] is 0-dimensional and the array of ones of the shape of [t] when it
    has one dimension or more. Then [t.backward()] without a gradient
    - is the same run as [t.backward(seed)];
    - stores [seed] in [t.grad] (or adds it to the buffer that is there)
      and then hands [seed] to the backward pass of the creator of [t];
    - ends with [t.grad] equal to [seed] when the buffer was absent and to
      the sum of the buffer and [seed] otherwise (when that sum raises,
      the exception goes to the caller and nothing has changed);
    - on a leaf without a gradient returns normally, and the heap it
      leaves is the heap before with [t.grad] set to [seed]. *)
Theorem backward_default_seed (n : nat) (t : tid) (T : Tensor) (d seed : ndarray)
    (h : heap) :
  well_formed h →
  tensors h !! t = Some T →
  arrays h !! data T = Some d →
  _scalar_only T = false →
  t ≤ n →
  (ndim d = 0 ∧ seed = np_one) ∨ (0 < ndim d ∧ seed = np_ones (shape d)) →
  Tensor_backward (S n) t None h
  = Tensor_backward (S n) t (Some (PyArray (Literal seed))) h
  ∧ Tensor_backward (S n) t None h
    = (new <- lift (accumulate (grad T) seed) ;;
       set_grad t (Some new) ;;;
       match _creator T with
       | Some f => Operation_backward (Tensor_backward n) f seed
       | None => ret tt
       end) h
  ∧ (∃ h' r,
       Tensor_backward (S n) t None h = (h', r)
       ∧ r ≠ Raise OutOfFuel
       ∧ match grad T with
         | None => grad_of h' t = Some (Some seed)
         | Some old =>
             match np_add old seed with
             | Ok sum => grad_of h' t = Some (Some sum)
             | Raise e => h' = h ∧ r = Raise (Exception e)
             end
         end)
  ∧ (grad T = None → _creator T = None →
     Tensor_backward (S n) t None h
     = ({| arrays := arrays h;
           tensors := <[t := with_grad (Some seed) T]> (tensors h);
           operations := operations h |}, Ok tt)).
Proof.
  intros Hwf HT Hd _ Htn Hcase.
  assert (Hseed : default_seed d = seed).
  { unfold default_seed. destruct Hcase as [[Hn ->]|[Hn ->]]; case_decide; done || lia. }
  assert (Hrun_seed : seed_of T None h = (h, Ok seed)).
  { simpl. rewrite (bind_Ok _ _ _ _ _ (get_array_Some _ _ _ Hd)). by rewrite Hseed. }
  assert (Hstep : Tensor_backward (S n) t None h
                  = (new <- lift (accumulate (grad T) seed) ;;
                     set_grad t (Some new) ;;;
                     match _creator T with
                     | Some f => Operation_backward (Tensor_backward n) f seed
                     | None => ret tt
                     end) h).
  { rewrite Tensor_backward_S.
    rewrite (bind_Ok _ _ _ _ _ (get_tensor_Some _ _ _ HT)).
    by rewrite (bind_Ok _ _ _ _ _ Hrun_seed). }
  split; [|split; [exact Hstep|split]].
  - rewrite Hstep, Tensor_backward_S.
    rewrite (bind_Ok _ _ _ _ _ (get_tensor_Some _ _ _ HT)).
    by rewrite (bind_Ok (seed_of T (Some (PyArray (Literal seed)))) _ h h seed eq_refl).
  - destruct (Tensor_backward_step n t T None h (Tensor_backward_frame n) Hwf Htn HT)
      as [(e & He & Hrun & [Hfail|(gv & e' & Hgv & Hacc & ->)])
         |(gv & new & h' & r & Hgv & Hacc & Hrun & Hr & _ & HT' & _)].
    + congruence.
    + rewrite Hrun_seed in Hgv. injection Hgv as <-.
      exists h, (Raise (Exception e')). split; [done|]. split; [done|].
      destruct (grad T) as [old|]; simpl in Hacc; [|done]. by rewrite Hacc.
    + rewrite Hrun_seed in Hgv. injection Hgv as <-.
      exists h', r. split; [done|]. split; [done|].
      unfold grad_of. rewrite HT'. simpl.
      destruct (grad T) as [old|]; simpl in Hacc; [by rewrite Hacc | congruence].
  - intros Hg Hc. rewrite <- Hseed. by apply backward_leaf_unguarded.
Qed.

Lemma insert_snoc {A} (l : list A) (x y : A) : <[length l := y]> (l ++ [x]) = l ++ [y].
Proof. rewrite insert_app_r_alt by lia. by rewrite Nat.sub_diag. Qed.

Lemma traverse_get_tensor_Ok vs Vs h :
  Forall2 (λ v V, tensors h !! v = Some V) vs Vs →
  traverse get_tensor vs h = (h, Ok Vs).
Proof.
  induction 1 as [|v V vs Vs HV _ IH]; [done|]. simpl.
  rewrite (bind_Ok _ _ _ _ _ (get_tensor_Some _ _ _ HV)).
  by rewrite (bind_Ok _ _ _ _ _ IH).
Qed.

Lemma input_arrays_Ok vs ds h :
  Forall2 (λ v d, ∃ T, tensors h !! v = Some T ∧ arrays h !! data T = Some d) vs ds →
  input_arrays vs h = (h, Ok ds).
Proof.
  unfold input_arrays.
  induction 1 as [|v d vs ds (T & HT & Hd) _ IH]; [done|]. simpl.
  rewrite (bind_Ok _ _ h h d).
  - by rewrite (bind_Ok _ _ _ _ _ IH).
  - rewrite (bind_Ok _ _ _ _ _ (get_tensor_Some _ _ _ HT)). by apply get_array_Some.
Qed.

Lemma Operation_call_Ok f O vs ins args kwargs out h :
  operations h !! f = Some O →
  Forall2 (λ v d, ∃ T, tensors h !! v = Some T ∧ arrays h !! data T = Some d) vs ins →
  op_forward (op_class O) ins args kwargs = Ok out →
  Operation_call f vs args kwargs h
  = ({| arrays := arrays h ++ [out]; tensors := tensors h;
        operations := <[f := {| op_class := op_class O; variables := vs |}]> (operations h) |},
     Ok (length (arrays h))).
Proof.
  intros HO Hins Hout. unfold Operation_call.
  set (h1 := {| arrays := arrays h; tensors := tensors h;
                operations := <[f := {| op_class := op_class O; variables := vs |}]>
                                (operations h) |}).
  rewrite (bind_Ok _ _ h h1 tt).
  2:{ unfold set_variables. by rewrite (bind_Ok _ _ _ _ _ (get_operation_Some _ _ _ HO)). }
  rewrite (bind_Ok _ _ h1 h1 {| op_class := op_class O; variables := vs |}).
  2:{ apply get_operation_Some. simpl. apply list_lookup_insert_eq.
      by eapply lookup_lt_Some. }
  rewrite (bind_Ok _ _ h1 h1 ins) by (by apply input_arrays_Ok).
  simpl. unfold bind, lift. by rewrite Hout.
Qed.

(** [x + x] on a Tensor whose array adds to itself. *)
Lemma Tensor_add_self h x X xd out :
  tensors h !! x = Some X →
  arrays h !! data X = Some xd →
  np_add xd xd = Ok out →
  issubdtype_number (get_dtype out) = true →
  Tensor_add x (PyTensor x) h
  = ({| arrays := arrays h ++ [out];
        tensors := tensors h ++
          [{| data := length (arrays h); grad := None;
              _constant := _constant X;
              _scalar_only := _scalar_only X && negb (_constant X);
              _creator := Some (length (operations h)) |}];
        operations := operations h ++ [{| op_class := Add; variables := [x; x] |}] |},
     Ok (length (tensors h))).
Proof.
  intros HX Hxd Hout Hnum.
  unfold Tensor_add, _op. rewrite (bind_Ok _ _ h h [x; x]) by done.
  unfold _op_core.
  erewrite bind_Ok; [|reflexivity].
  erewrite bind_Ok.
  2:{ eapply (Operation_call_Ok _ {| op_class := Add; variables := [] |} _ [xd; xd]);
        [apply lookup_snoc | repeat constructor; eauto | exact Hout]. }
  cbn [operations arrays tensors]. rewrite insert_snoc.
  erewrite bind_Ok.
  2:{ apply (traverse_get_tensor_Ok _ [X; X]). repeat constructor; done. }
  cbn [forallb scalar_only_loop fold_left op_scalar_only Add].
  unfold Tensor_init, np_asarray.
  erewrite bind_Ok.
  2:{ erewrite bind_Ok.
      2:{ erewrite bind_Ok; [reflexivity|]. apply get_array_Some. simpl. apply lookup_snoc. }
      erewrite bind_Ok; [|apply get_array_Some; simpl; apply lookup_snoc].
      unfold _check_valid_dtype. rewrite Hnum. reflexivity. }
  unfold new_tensor. simpl. repeat f_equal.
  - by destruct (_constant X).
  - by destruct (_scalar_only X), (_constant X).
Qed.

Lemma well_formed_new_tensor h arrs ops Y :
  well_formed h →
  arrays h `prefix_of` arrs →
  operations h `prefix_of` ops →
  is_Some (arrs !! data Y) →
  (∀ f, _creator Y = Some f →
     ∃ O, ops !! f = Some O ∧ Forall (λ v, v < length (tensors h)) (variables O)) →
  well_formed {| arrays := arrs; tensors := tensors h ++ [Y]; operations := ops |}.
Proof.
  intros Hwf Harr Hops HdY HcY t T. simpl. intros HT.
  apply lookup_app_Some in HT as [HT|[Hlen HT]].
  - destruct (Hwf t T HT) as [[d Hd] Hcr]. split.
    + exists d. by eapply prefix_lookup_Some.
    + intros f Hf. destruct (Hcr f Hf) as (O & HO & Hvars). exists O.
      split; [by eapply prefix_lookup_Some | done].
  - destruct (t - length (tensors h)) as [|k] eqn:Hk; [|by destruct k].
    simpl in HT. injection HT as ->. assert (t = length (tensors h)) as -> by lia.
    split; [done|]. done.
Qed.

Section add_self.
Context `{!NumPyLaws}.

Lemma default_seed_laws d :
  shape (default_seed d) = shape d
  ∧ issubdtype_number (get_dtype (default_seed d)) = true.
Proof.
  unfold default_seed, ndim. case_decide as Hn.
  - apply nil_length_inv in Hn. rewrite Hn. split; [apply shape_np_one | apply number_np_one].
  - split; [apply shape_np_ones | apply number_np_ones].
Qed.

(** [y = x + x; y.backward()] on a Tensor [x] that is not constant and
    has no gradient yet. *)
Lemma add_self_backward h x X xd :
  well_formed h →
  tensors h !! x = Some X →
  arrays h !! data X = Some xd →
  issubdtype_number (get_dtype xd) = true →
  _constant X = false →
  grad X = None →
  ∃ h1 y two,
    Tensor_add x (PyTensor x) h = (h1, Ok y)
    ∧ np_add (default_seed xd) (default_seed xd) = Ok two
    ∧ ∀ fuel, y < fuel →
        ∃ h2 r, Tensor_backward fuel y None h1 = (h2, r)
                ∧ r ≠ Raise OutOfFuel
                ∧ (r = Ok tt → grad_of h2 x = Some (Some two))
                ∧ (_creator X = None → r = Ok tt).
Proof.
  intros Hwf HX Hxd Hnum Hconst Hgrad.
  destruct (np_add_same_shape xd xd Hnum Hnum eq_refl) as (out & Hout & Hshape & Hnout).
  pose proof (Tensor_add_self h x X xd out HX Hxd Hout Hnout) as Hadd.
  set (Y := {| data := length (arrays h); grad := None; _constant := _constant X;
               _scalar_only := _scalar_only X && negb (_constant X);
               _creator := Some (length (operations h)) |}) in *.
  set (O := {| op_class := Add; variables := [x; x] |}) in *.
  set (h1 := {| arrays := arrays h ++ [out]; tensors := tensors h ++ [Y];
                operations := operations h ++ [O] |}) in *.
  set (seed := default_seed xd).
  assert (Hseed : default_seed out = seed).
  { unfold seed, default_seed, ndim. by rewrite Hshape. }
  destruct (default_seed_laws xd) as [Hsshape Hsnum]. fold seed in Hsshape, Hsnum.
  destruct (np_add_same_shape seed seed Hsnum Hsnum eq_refl) as (two & Htwo & _ & _).
  pose proof (lookup_lt_Some _ _ _ HX) as Hxlt.
  assert (Hwf1 : well_formed h1).
  { apply well_formed_new_tensor; [done|by apply prefix_app_r..| |].
    - exists out. apply lookup_snoc.
    - intros f [= <-]. exists O. split; [apply lookup_snoc|].
      repeat constructor; done. }
  exists h1, (length (tensors h)), two. split; [done|]. split; [done|].
  intros [|m] Hfuel; [lia|].
  (* the call on y *)
  rewrite Tensor_backward_S.
  rewrite (bind_Ok _ _ h1 h1 Y) by (apply get_tensor_Some, lookup_snoc).
  rewrite (bind_Ok _ _ h1 h1 seed).
  2:{ simpl. rewrite (bind_Ok _ _ h1 h1 out) by (apply get_array_Some, lookup_snoc).
      unfold ret. by rewrite Hseed. }
  rewrite (bind_Ok _ _ h1 h1 seed) by done.
  rewrite (bind_Ok _ _ _ _ _ (set_grad_Some h1 _ Y (Some seed) (lookup_snoc _ _))).
  cbn [arrays tensors operations h1 _creator Y]. rewrite insert_snoc.
  set (h2 := {| arrays := arrays h ++ [out];
                tensors := tensors h ++ [with_grad (Some seed) Y];
                operations := operations h ++ [O] |}).
  assert (Hs12 : same_graph h1 h2).
  { pose proof (same_graph_set_grad h1 _ Y (Some seed) (lookup_snoc _ _)) as Hs.
    simpl in Hs. by rewrite insert_snoc in Hs. }
  assert (Hwf2 : well_formed h2) by (by eapply well_formed_same_graph).
  assert (HX2 : tensors h2 !! x = Some X) by (simpl; by rewrite lookup_app_l).
  (* the creator's backward pass *)
  rewrite Operation_backward_eq.
  rewrite (bind_Ok _ _ h2 h2 O) by (apply get_operation_Some, lookup_snoc).
  rewrite (bind_Ok _ _ h2 h2 [xd; xd]).
  2:{ apply input_arrays_Ok. repeat constructor; exists X; split; try done;
      simpl; by rewrite lookup_app_l by (by eapply lookup_lt_Some). }
  assert (Hcontrib : ∀ i, i < 2 →
            op_backward_var (op_class O) [xd; xd] seed i = Ok seed).
  { intros i Hi. simpl. destruct i as [|[|i]]; [| |lia]; simpl;
      by rewrite decide_True. }
  cbn [variables O].
  destruct m as [|m]; [lia|].
  pose proof (Tensor_backward_frame m) as IH.
  (* first operand *)
  rewrite for_each_cons.
  destruct (Tensor_backward_step m x X (Some (PyArray (Literal seed))) h2 IH Hwf2)
    as [(e & _ & _ & [He|(gv & e' & Hgv & Hacc & _)])
       |(gv & new & h3 & r3 & Hgv & Hacc & Hrun3 & Hr3 & Ht3 & HX3 & Hleaf3)];
    [lia | done | done | by rewrite Hgrad in Hacc; injection Hgv as <- | ].
  injection Hgv as <-. rewrite Hgrad in Hacc. injection Hacc as <-.
  assert (Hbody3 : backward_body (Tensor_backward (S m))
                     (op_backward_var (op_class O) [xd; xd] seed) 0 x h2 = (h3, r3)).
  { unfold backward_body. rewrite (bind_Ok _ _ h2 h2 seed).
    2:{ unfold lift. by rewrite Hcontrib by lia. }
    rewrite (bind_Ok _ _ _ _ _ (get_tensor_Some _ _ _ HX2)). by rewrite Hconst. }
  destruct r3 as [[]|e3].
  2:{ rewrite (bind_Raise _ _ _ _ _ Hbody3). exists h3, (Raise e3).
      split; [done|]. split; [done|]. split; [done|].
      intros Hc. by destruct (Hleaf3 Hc). }
  rewrite (bind_Ok _ _ _ _ _ Hbody3).
  assert (Hwf3 : well_formed h3).
  { eapply well_formed_same_graph; [apply Ht3 | done]. }
  (* second operand *)
  rewrite for_each_cons.
  destruct (Tensor_backward_step m x (with_grad (Some seed) X)
              (Some (PyArray (Literal seed))) h3 IH Hwf3)
    as [(e & _ & _ & [He|(gv & e' & Hgv & Hacc & _)])
       |(gv & new & h4 & r4 & Hgv & Hacc & Hrun4 & Hr4 & Ht4 & HX4 & Hleaf4)];
    [lia | done | done | | ].
  { injection Hgv as <-. simpl in Hacc. congruence. }
  injection Hgv as <-. simpl in Hacc. rewrite Htwo in Hacc. injection Hacc as <-.
  assert (Hbody4 : backward_body (Tensor_backward (S m))
                     (op_backward_var (op_class O) [xd; xd] seed) 1 x h3 = (h4, r4)).
  { unfold backward_body. rewrite (bind_Ok _ _ h3 h3 seed).
    2:{ unfold lift. by rewrite Hcontrib by lia. }
    rewrite (bind_Ok _ _ _ _ _ (get_tensor_Some _ _ _ HX3)). simpl. by rewrite Hconst. }
  destruct r4 as [[]|e4].
  2:{ rewrite (bind_Raise _ _ _ _ _ Hbody4). exists h4, (Raise e4).
      split; [done|]. split; [done|]. split; [done|].
      intros Hc. by destruct (Hleaf4 Hc). }
  rewrite (bind_Ok _ _ _ _ _ Hbody4). exists h4, (Ok tt).
  split; [done|]. split; [done|]. split; [|done].
  intros _. unfold grad_of. by rewrite HX4.
Qed.
(** C6: on a well-formed graph, [t.backward(g)] with a gradient [g] sets
    [t.grad] to [g] when the buffer was absent and to the sum of the
    buffer and [g] otherwise (when that sum raises, the exception goes to
    the caller and nothing has changed); the calls it makes upstream do
    not touch [t.grad]. Consequently, for [y = x + x] with [x] not
    constant and without a gradient, [y.backward()], when it returns,
    leaves in [x.grad] the sum of two seeds (1 + 1, not 1), and it does
    return when [x] is a leaf. *)
Theorem backward_accumulates :
  (∀ fuel h t T g gv,
     well_formed h →
     tensors h !! t = Some T →
     incoming g h = (h, Ok gv) →
     t < fuel →
     ∃ h' r,
       Tensor_backward fuel t (Some g) h = (h', r)
       ∧ r ≠ Raise OutOfFuel
       ∧ match grad T with
         | None => grad_of h' t = Some (Some gv)
         | Some old =>
             match np_add old gv with
             | Ok sum => grad_of h' t = Some (Some sum)
             | Raise e => h' = h ∧ r = Raise (Exception e)
             end
         end)
  ∧ (∀ h x X xd,
       well_formed h →
       tensors h !! x = Some X →
       arrays h !! data X = Some xd →
       issubdtype_number (get_dtype xd) = true →
       _constant X = false →
       grad X = None →
       let seed := if decide (ndim xd = 0) then np_one else np_ones (shape xd) in
       ∃ h1 y two,
         Tensor_add x (PyTensor x) h = (h1, Ok y)
         ∧ np_add seed seed = Ok two
         ∧ ∀ fuel, y < fuel →
             ∃ h2 r, Tensor_backward fuel y None h1 = (h2, r)
                     ∧ r ≠ Raise OutOfFuel
                     ∧ (r = Ok tt → grad_of h2 x = Some (Some two))
                     ∧ (_creator X = None → r = Ok tt)).
Proof.
  split.
  - intros [|n] h t T g gv Hwf HT Hg Hfuel; [lia|].
    destruct (Tensor_backward_step n t T (Some g) h (Tensor_backward_frame n) Hwf)
      as [(e & He & Hrun & [Hseed|(gv' & e' & Hseed & Hacc & ->)])
         |(gv' & new & h' & r & Hseed & Hacc & Hrun & Hr & _ & HT' & _)];
      [lia | done | simpl in Hseed; congruence | ..].
    + simpl in Hseed. rewrite Hg in Hseed. injection Hseed as <-.
      exists h, (Raise (Exception e')). split; [done|]. split; [done|].
      destruct (grad T) as [old|]; simpl in Hacc; [|done]. by rewrite Hacc.
    + simpl in Hseed. rewrite Hg in Hseed. injection Hseed as <-.
      exists h', r. split; [done|]. split; [done|].
      unfold grad_of. rewrite HT'. simpl.
      destruct (grad T) as [old|]; simpl in Hacc; [by rewrite Hacc | congruence].
  - intros h x X xd Hwf HX Hxd Hnum Hc Hg. by apply add_self_backward.
Qed.
End add_self.

(** ** The invariants are kept by construction, propagation and reset *)

Lemma get_array_Ok_inv h h' a v :
  get_array a h = (h', Ok v) → h' = h ∧ arrays h !! a = Some v.
Proof.
  unfold get_array. destruct (arrays h !! a); simpl; unfold ret, raise; naive_solver.
Qed.

Lemma get_operation_Ok_inv h h' f O :
  get_operation f h = (h', Ok O) → h' = h ∧ operations h !! f = Some O.
Proof.
  unfold get_operation. destruct (operations h !! f); simpl; unfold ret, raise; naive_solver.
Qed.

Lemma _check_valid_dtype_Ok_inv d h h' u :
  _check_valid_dtype d h = (h', Ok u) → h' = h ∧ issubdtype_number d = true.
Proof.
  unfold _check_valid_dtype. destruct (issubdtype_number d); simpl;
    unfold ret, raise; naive_solver.
Qed.

(** The heap a successful construction leaves. *)
Lemma Tensor_init_Ok_heap x constant so cr h h' t :
  Tensor_init x constant so cr h = (h', Ok t) →
  ∃ d arrs,
    h' = {| arrays := arrs;
            tensors := tensors h ++ [{| data := d; grad := None; _constant := constant;
                                        _scalar_only := so; _creator := cr |}];
            operations := operations h |}
    ∧ t = length (tensors h)
    ∧ arrays h `prefix_of` arrs
    ∧ match x with
      | PyTensor u => ∃ U, tensors h !! u = Some U ∧ d = data U ∧ arrs = arrays h
      | PyArray _ => ∃ a, arrs !! d = Some a ∧ issubdtype_number (get_dtype a) = true
      end.
Proof.
  unfold Tensor_init. intros H.
  apply bind_Ok_inv in H as (h1 & d & Hd & H).
  unfold new_tensor in H. injection H as <- <-.
  destruct x as [u|[a|v]].
  - apply bind_Ok_inv in Hd as (h2 & U & HU & Hd).
    apply get_tensor_Ok_inv in HU as [-> HU]. unfold ret in Hd. injection Hd as <- <-.
    exists (data U), (arrays h). repeat split; eauto.
  - apply bind_Ok_inv in Hd as (h2 & a' & Ha' & Hd).
    unfold np_asarray in Ha'. apply bind_Ok_inv in Ha' as (h3 & w & Hw & Ha').
    apply get_array_Ok_inv in Hw as [-> Hw]. unfold ret in Ha'. injection Ha' as <- <-.
    apply bind_Ok_inv in Hd as (h4 & w' & Hw' & Hd).
    apply get_array_Ok_inv in Hw' as [-> Hw'].
    apply bind_Ok_inv in Hd as (h5 & [] & Hchk & Hd).
    apply _check_valid_dtype_Ok_inv in Hchk as [-> Hnum].
    unfold ret in Hd. injection Hd as <- <-.
    exists a, (arrays h). repeat split; eauto.
  - apply bind_Ok_inv in Hd as (h2 & a' & Ha' & Hd).
    unfold np_asarray, new_array in Ha'. injection Ha' as <- <-.
    apply bind_Ok_inv in Hd as (h4 & w' & Hw' & Hd).
    apply get_array_Ok_inv in Hw' as [-> Hw']. simpl in Hw'.
    apply bind_Ok_inv in Hd as (h5 & [] & Hchk & Hd).
    apply _check_valid_dtype_Ok_inv in Hchk as [-> Hnum].
    unfold ret in Hd. injection Hd as <- <-.
    exists (length (arrays h)), (arrays h ++ [v]).
    split; [done|]. split; [done|]. split; [by apply prefix_app_r|]. eauto.
Qed.

Lemma numeric_data_new_tensor h arrs ops Y a :
  numeric_data h →
  arrays h `prefix_of` arrs →
  arrs !! data Y = Some a →
  issubdtype_number (get_dtype a) = true →
  numeric_data {| arrays := arrs; tensors := tensors h ++ [Y]; operations := ops |}.
Proof.
  intros Hnum Harr Ha Hd t T. simpl. intros HT.
  apply lookup_app_Some in HT as [HT|[Hlen HT]].
  - destruct (Hnum t T HT) as (b & Hb & ?). exists b.
    split; [by eapply prefix_lookup_Some | done].
  - destruct (t - length (tensors h)) as [|k]; [|by destruct k].
    simpl in HT. injection HT as ->. eauto.
Qed.

Lemma well_formed_empty : well_formed empty_heap.
Proof. intros t T HT. simpl in HT. by destruct t. Qed.

Lemma numeric_data_empty : numeric_data empty_heap.
Proof. intros t T HT. simpl in HT. by destruct t. Qed.

(** Construction of a leaf keeps the invariants. *)
Lemma Tensor_init_leaf_invariant x constant so h h' t :
  Tensor_init x constant so None h = (h', Ok t) →
  well_formed h ∧ numeric_data h →
  well_formed h' ∧ numeric_data h'.
Proof.
  intros H [Hwf Hnum].
  apply Tensor_init_Ok_heap in H as (d & arrs & -> & -> & Hpre & Hx).
  assert (∃ a, arrs !! d = Some a ∧ issubdtype_number (get_dtype a) = true)
    as (a & Ha & Hd).
  { destruct x as [u|y]; [|done]. destruct Hx as (U & HU & -> & ->). by eapply Hnum. }
  split.
  - apply well_formed_new_tensor; [done..| |]; simpl; [eauto | done].
  - by eapply numeric_data_new_tensor.
Qed.

Lemma traverse_coerce_invariant xs h h1 vs :
  traverse coerce xs h = (h1, Ok vs) →
  well_formed h ∧ numeric_data h →
  well_formed h1 ∧ numeric_data h1.
Proof.
  revert h vs. induction xs as [|x xs IH]; intros h vs; simpl.
  - unfold ret. by intros [= <- <-].
  - intros H Hinv. apply bind_Ok_inv in H as (ha & v & Hv & H).
    apply bind_Ok_inv in H as (hb & vs' & Hvs & H).
    unfold ret in H. injection H as <- <-.
    eapply IH; [exact Hvs|]. destruct x as [u|y]; simpl in Hv.
    + unfold ret in Hv. by injection Hv as <- <-.
    + by eapply Tensor_init_leaf_invariant.
Qed.

Lemma Operation_call_Ok_inv f vs args kwargs h h' a :
  Operation_call f vs args kwargs h = (h', Ok a) →
  ∃ O out,
    operations h !! f = Some O
    ∧ a = length (arrays h)
    ∧ h' = {| arrays := arrays h ++ [out]; tensors := tensors h;
              operations := <[f := {| op_class := op_class O; variables := vs |}]>
                              (operations h) |}.
Proof.
  unfold Operation_call. intros H.
  apply bind_Ok_inv in H as (h1 & [] & Hset & H).
  unfold set_variables in Hset. apply bind_Ok_inv in Hset as (h0 & O & HO & Hset).
  apply get_operation_Ok_inv in HO as [-> HO]. injection Hset as <-.
  apply bind_Ok_inv in H as (h2 & O' & HO' & H).
  apply get_operation_Ok_inv in HO' as [-> HO'].
  apply bind_Ok_inv in H as (h3 & ins & Hins & H).
  apply reads_input_arrays in Hins as [-> _].
  apply bind_Ok_inv in H as (h4 & out & Hout & H).
  pose proof (reads_lift _ _ _ _ Hout) as [-> _].
  unfold new_array in H. injection H as <- <-. simpl. by exists O, out.
Qed.

(** [_op] keeps the invariants. *)
Lemma _op_invariant Op input_vars op_args op_kwargs h h' t :
  _op Op input_vars op_args op_kwargs h = (h', Ok t) →
  well_formed h ∧ numeric_data h →
  well_formed h' ∧ numeric_data h'.
Proof.
  unfold _op. intros H Hinv. apply bind_Ok_inv in H as (h1 & vs & Hvs & H).
  apply (traverse_coerce_invariant _ _ _ _ Hvs) in Hinv as [Hwf Hnum].
  unfold _op_core in H.
  apply bind_Ok_inv in H as (h2 & f & Hf & H).
  unfold new_operation in Hf. injection Hf as <- <-.
  apply bind_Ok_inv in H as (h3 & out & Hout & H).
  apply Operation_call_Ok_inv in Hout as (O & w & HO & -> & ->).
  simpl in HO. rewrite lookup_snoc in HO. injection HO as <-.
  simpl in H. rewrite insert_snoc in H.
  apply bind_Ok_inv in H as (h4 & Vs & HVs & H).
  apply traverse_get_tensor in HVs as [-> HVs]. simpl in HVs.
  apply Tensor_init_Ok_heap in H as (d & arrs & -> & _ & Hpre & a & Ha & Hd).
  simpl in *. split.
  - apply well_formed_new_tensor; simpl; [done| | |eauto|].
    + etrans; [|exact Hpre]. by apply prefix_app_r.
    + by apply prefix_app_r.
    + intros f [= <-]. eexists. split; [apply lookup_snoc|]. simpl.
      apply Forall_forall. intros v Hv.
      apply list_elem_of_lookup in Hv as [i Hi].
      destruct (Forall2_lookup_l _ _ _ _ _ HVs Hi) as (V & _ & HV).
      by eapply lookup_lt_Some.
  - eapply numeric_data_new_tensor; [done| |done..].
    etrans; [|exact Hpre]. by apply prefix_app_r.
Qed.

Lemma numeric_data_same_graph h h' : same_graph h h' → numeric_data h → numeric_data h'.
Proof.
  intros Hs Hnum t T' HT'.
  destruct (same_graph_lookup_r _ _ _ _ Hs HT') as (T & HT & Hd & _).
  destruct Hs as (Ha & _ & _). rewrite Ha, Hd. by eapply Hnum.
Qed.

(** [backward], with enough fuel, keeps the invariants. *)
Lemma Tensor_backward_invariant fuel t g h :
  t < fuel →
  well_formed h ∧ numeric_data h →
  well_formed (Tensor_backward fuel t g h).1 ∧ numeric_data (Tensor_backward fuel t g h).1.
Proof.
  intros Hfuel [Hwf Hnum].
  destruct (Tensor_backward_frame fuel t g h Hwf Hfuel) as (h' & r & -> & _ & Hs & _).
  simpl. split; [by eapply well_formed_same_graph | by eapply numeric_data_same_graph].
Qed.

End Properties.

(** * Properties of the rest of the class *)

Section MoreProperties.
Context `{NP : NumPy}.

(** ** Construction from an array-like input *)

(** The run of [Tensor(x, ...)] on a numeric input that is not a Tensor. *)
Lemma Tensor_init_array_run x constant so cr h v :
  coerced x h = Some v →
  issubdtype_number (get_dtype v) = true →
  Tensor_init (PyArray x) constant so cr h
  = ({| arrays := match x with Ndarray _ => arrays h | Literal w => arrays h ++ [w] end;
        tensors := tensors h ++
          [{| data := match x with Ndarray a => a | Literal _ => length (arrays h) end;
              grad := None; _constant := constant; _scalar_only := so;
              _creator := cr |}];
        operations := operations h |},
     Ok (length (tensors h))).
Proof.
  intros Hx Hnum. unfold Tensor_init. destruct x as [a|w]; simpl in Hx.
  - rewrite (bind_Ok _ _ h h a).
    2:{ rewrite (bind_Ok _ _ h h a).
        2:{ unfold np_asarray. by rewrite (bind_Ok _ _ _ _ _ (get_array_Some _ _ _ Hx)). }
        rewrite (bind_Ok _ _ _ _ _ (get_array_Some _ _ _ Hx)).
        unfold _check_valid_dtype. by rewrite Hnum. }
    done.
  - injection Hx as ->.
    set (h1 := {| arrays := arrays h ++ [v]; tensors := tensors h;
                  operations := operations h |}).
    rewrite (bind_Ok _ _ h h1 (length (arrays h))); [done|].
    rewrite (bind_Ok _ _ h h1 (length (arrays h))) by done.
    rewrite (bind_Ok _ _ h1 h1 v) by (apply get_array_Some, lookup_snoc).
    unfold _check_valid_dtype. by rewrite Hnum.
Qed.

(** What a successful [Tensor(x, ...)] on an input that is not a Tensor
    was given, and the heap it leaves. *)
Lemma Tensor_init_array_Ok_inv x constant so cr h h' t :
  Tensor_init (PyArray x) constant so cr h = (h', Ok t) →
  ∃ v, coerced x h = Some v
       ∧ issubdtype_number (get_dtype v) = true
       ∧ t = length (tensors h)
       ∧ h' = {| arrays := match x with
                           | Ndarray _ => arrays h
                           | Literal w => arrays h ++ [w]
                           end;
                 tensors := tensors h ++
                   [{| data := match x with
                               | Ndarray a => a
                               | Literal _ => length (arrays h)
                               end;
                       grad := None; _constant := constant; _scalar_only := so;
                       _creator := cr |}];
                 operations := operations h |}.
Proof.
  intros H. destruct (coerced x h) as [v|] eqn:Hx.
  - destruct (issubdtype_number (get_dtype v)) eqn:Hnum.
    + rewrite (Tensor_init_array_run _ _ _ _ _ _ Hx Hnum) in H.
      injection H as <- <-. by exists v.
    + exfalso. unfold Tensor_init in H. destruct x as [a|w]; simpl in Hx.
      * apply bind_Ok_inv in H as (h1 & d & Hd & _).
        apply bind_Ok_inv in Hd as (h2 & a' & Ha' & Hd).
        unfold np_asarray in Ha'. apply bind_Ok_inv in Ha' as (h3 & w & Hw & Ha').
        apply get_array_Ok_inv in Hw as [-> Hw]. unfold ret in Ha'. injection Ha' as <- <-.
        apply bind_Ok_inv in Hd as (h4 & w' & Hw' & Hd).
        apply get_array_Ok_inv in Hw' as [-> Hw'].
        apply bind_Ok_inv in Hd as (h5 & [] & Hchk & _).
        apply _check_valid_dtype_Ok_inv in Hchk as [_ Hchk]. congruence.
      * injection Hx as ->.
        apply bind_Ok_inv in H as (h1 & d & Hd & _).
        apply bind_Ok_inv in Hd as (h2 & a' & Ha' & Hd).
        unfold np_asarray, new_array in Ha'. injection Ha' as <- <-.
        apply bind_Ok_inv in Hd as (h4 & w' & Hw' & Hd).
        apply get_array_Ok_inv in Hw' as [-> Hw']. simpl in Hw'.
        rewrite lookup_snoc in Hw'. injection Hw' as <-.
        apply bind_Ok_inv in Hd as (h5 & [] & Hchk & _).
        apply _check_valid_dtype_Ok_inv in Hchk as [_ Hchk]. congruence.
  - exfalso. destruct x as [a|w]; [|done]. simpl in Hx. unfold Tensor_init in H.
    apply bind_Ok_inv in H as (h1 & d & Hd & _).
    apply bind_Ok_inv in Hd as (h2 & a' & Ha' & _).
    unfold np_asarray in Ha'. apply bind_Ok_inv in Ha' as (h3 & w & Hw & _).
    apply get_array_Ok_inv in Hw as [_ Hw]. congruence.
Qed.

(** X1: constructing a Tensor from an input that is not a Tensor and whose
    coerced array is numeric succeeds. The new Tensor is the next one of
    the heap, has no gradient, the flags and creator it was given, and
    holds the coerced array; an ndarray given as input becomes its data as
    it is (no array is made); no existing Tensor, operation or array
    changes. *)
Theorem Tensor_init_array_succeeds (x : array_like) (constant so : bool)
    (cr : option oid) (h : heap) (v : ndarray) :
  coerced x h = Some v →
  issubdtype_number (get_dtype v) = true →
  ∃ h' T,
    Tensor_init (PyArray x) constant so cr h = (h', Ok (length (tensors h)))
    ∧ tensors h' = tensors h ++ [T]
    ∧ operations h' = operations h
    ∧ arrays h `prefix_of` arrays h'
    ∧ arrays h' !! data T = Some v
    ∧ grad T = None
    ∧ _constant T = constant ∧ _scalar_only T = so ∧ _creator T = cr
    ∧ ∀ a, x = Ndarray a → data T = a ∧ arrays h' = arrays h.
Proof.
  intros Hx Hnum. eexists _, _.
  split; [by apply (Tensor_init_array_run x constant so cr h v)|]. simpl.
  split; [done|]. split; [done|].
  destruct x as [a|w]; simpl in *.
  - split; [done|]. split; [done|]. repeat (split; [done|]). by intros ? [= <-].
  - injection Hx as ->. split; [by apply prefix_app_r|].
    split; [apply lookup_snoc|]. repeat (split; [done|]). done.
Qed.

(** ** What [_op] adds to the heap *)

Lemma coerced_prefix y h h1 v :
  arrays h `prefix_of` arrays h1 → coerced y h = Some v → coerced y h1 = Some v.
Proof.
  destruct y as [a|w]; simpl; [|done]. intros Hpre Ha. by eapply prefix_lookup_Some.
Qed.

Lemma coerce_raw_Ok_inv y h h1 v :
  coerce (PyArray y) h = (h1, Ok v) →
  ∃ C, tensors h1 = tensors h ++ [C] ∧ constant_leaf C
       ∧ v = length (tensors h)
       ∧ operations h1 = operations h
       ∧ arrays h `prefix_of` arrays h1
       ∧ coerced y h1 = arrays h1 !! data C
       ∧ is_Some (coerced y h).
Proof.
  simpl. intros H.
  apply Tensor_init_array_Ok_inv in H as (w & Hw & _ & -> & ->). simpl.
  eexists. split; [done|]. split; [done|]. split; [done|]. split; [done|].
  destruct y as [a|u]; simpl in *.
  - split; [done|]. split; [done|]. eauto.
  - split; [by apply prefix_app_r|]. split; [by rewrite lookup_snoc | eauto].
Qed.

(** The heap after the coercion loop of [_op]. *)
Lemma traverse_coerce_heap xs h h1 vs :
  traverse coerce xs h = (h1, Ok vs) →
  operations h1 = operations h
  ∧ arrays h `prefix_of` arrays h1
  ∧ length vs = length xs
  ∧ ∃ news, tensors h1 = tensors h ++ news
            ∧ length news = raw_count xs
            ∧ Forall constant_leaf news.
Proof.
  revert h vs. induction xs as [|x xs IH]; intros h vs; simpl.
  - unfold ret. intros [= <- <-]. repeat split; [done..|].
    exists []. by rewrite app_nil_r.
  - intros H. apply bind_Ok_inv in H as (ha & v & Hv & H).
    apply bind_Ok_inv in H as (hb & vs' & Hvs & H).
    unfold ret in H. injection H as <- <-.
    apply IH in Hvs as (Hops & Harr & Hlen & news & Hts & Hn & Hnews).
    destruct x as [u|y].
    + simpl in Hv. unfold ret in Hv. injection Hv as <- <-.
      split; [done|]. split; [done|]. split; [simpl; lia|].
      exists news. done.
    + apply coerce_raw_Ok_inv in Hv as (C & HtC & HC & _ & HopsC & HarrC & _).
      split; [congruence|]. split; [by etrans|]. split; [simpl; lia|].
      exists (C :: news). split; [by rewrite Hts, HtC, <- app_assoc|].
      unfold raw_count in *. simpl. split; [lia|]. by constructor.
Qed.

Lemma Tensor_init_ndarray_Ok_inv a constant so cr h h' t :
  Tensor_init (PyArray (Ndarray a)) constant so cr h = (h', Ok t) →
  t = length (tensors h)
  ∧ h' = {| arrays := arrays h;
            tensors := tensors h ++
              [{| data := a; grad := None; _constant := constant;
                  _scalar_only := so; _creator := cr |}];
            operations := operations h |}.
Proof.
  intros H. by apply Tensor_init_array_Ok_inv in H as (v & _ & _ & -> & ->).
Qed.

(** The heap a successful [_op] leaves. *)
Lemma _op_Ok_heap Op input_vars op_args op_kwargs h h' t :
  _op Op input_vars op_args op_kwargs h = (h', Ok t) →
  ∃ h1 vs Vs out,
    traverse coerce input_vars h = (h1, Ok vs)
    ∧ Forall2 (λ v V, tensors h1 !! v = Some V) vs Vs
    ∧ t = length (tensors h1)
    ∧ h' = {| arrays := arrays h1 ++ [out];
              tensors := tensors h1 ++
                [{| data := length (arrays h1); grad := None;
                    _constant := forallb _constant Vs;
                    _scalar_only :=
                      scalar_only_loop
                        (op_scalar_only Op && negb (forallb _constant Vs)) Vs;
                    _creator := Some (length (operations h1)) |}];
              operations := operations h1 ++ [{| op_class := Op; variables := vs |}] |}.
Proof.
  unfold _op. intros H. apply bind_Ok_inv in H as (h1 & vs & Hvs & H).
  unfold _op_core in H.
  apply bind_Ok_inv in H as (h2 & f & Hf & H).
  unfold new_operation in Hf. injection Hf as <- <-.
  apply bind_Ok_inv in H as (h3 & out & Hout & H).
  apply Operation_call_Ok_inv in Hout as (O & w & HO & -> & ->).
  simpl in HO. rewrite lookup_snoc in HO. injection HO as <-.
  simpl in H. rewrite insert_snoc in H.
  apply bind_Ok_inv in H as (h4 & Vs & HVs & H).
  apply traverse_get_tensor in HVs as [-> HVs]. simpl in HVs.
  apply Tensor_init_ndarray_Ok_inv in H as [-> ->]. simpl.
  by exists h1, vs, Vs, w.
Qed.

(** X2: a successful [_op] adds to the heap one constant leaf Tensor for
    each input that is not a Tensor, then the result, and one operation, of
    the class it was given; the result has no gradient and that operation
    as creator (also when the result is constant). No existing Tensor or
    operation changes. *)
Theorem op_adds_one_node Op input_vars op_args op_kwargs h h' t :
  _op Op input_vars op_args op_kwargs h = (h', Ok t) →
  ∃ news T O,
    tensors h' = tensors h ++ news ++ [T]
    ∧ length news = raw_count input_vars
    ∧ Forall constant_leaf news
    ∧ t = length (tensors h) + raw_count input_vars
    ∧ grad T = None
    ∧ _creator T = Some (length (operations h))
    ∧ operations h' = operations h ++ [O]
    ∧ op_class O = Op.
Proof.
  intros H. apply _op_Ok_heap in H as (h1 & vs & Vs & out & Hvs & _ & -> & ->).
  apply traverse_coerce_heap in Hvs as (Hops & _ & _ & news & Hts & Hn & Hnews).
  eexists news, _, _. simpl. rewrite Hts, Hops, <- app_assoc.
  split; [done|]. split; [done|]. split; [done|].
  split; [rewrite length_app; lia|]. done.
Qed.

(** ** A raw input that is not numeric *)

Lemma Tensor_init_array_TypeError x constant so cr h v :
  coerced x h = Some v →
  issubdtype_number (get_dtype v) = false →
  ∃ h', Tensor_init (PyArray x) constant so cr h
          = (h', Raise (Exception (TypeError "Tensor data must be a numeric type")))
        ∧ tensors h' = tensors h ∧ operations h' = operations h.
Proof.
  intros Hx Hnum. unfold Tensor_init. destruct x as [a|w]; simpl in Hx.
  - eexists. split; [|done].
    apply bind_Raise. rewrite (bind_Ok _ _ h h a).
    2:{ unfold np_asarray. by rewrite (bind_Ok _ _ _ _ _ (get_array_Some _ _ _ Hx)). }
    rewrite (bind_Ok _ _ _ _ _ (get_array_Some _ _ _ Hx)).
    apply bind_Raise. unfold _check_valid_dtype. by rewrite Hnum.
  - injection Hx as ->.
    set (h1 := {| arrays := arrays h ++ [v]; tensors := tensors h;
                  operations := operations h |}).
    exists h1. split; [|done].
    apply bind_Raise. rewrite (bind_Ok _ _ h h1 (length (arrays h))) by done.
    rewrite (bind_Ok _ _ h1 h1 v) by (apply get_array_Some, lookup_snoc).
    apply bind_Raise. unfold _check_valid_dtype. by rewrite Hnum.
Qed.

Lemma traverse_coerce_TypeError xs h0 :
  Forall (λ x, ∀ y, x = PyArray y → is_Some (coerced y h0)) xs →
  Exists (λ x, ∃ y v, x = PyArray y ∧ coerced y h0 = Some v
                      ∧ issubdtype_number (get_dtype v) = false) xs →
  ∀ h, arrays h0 `prefix_of` arrays h →
    ∃ h', traverse coerce xs h
            = (h', Raise (Exception (TypeError "Tensor data must be a numeric type")))
          ∧ operations h' = operations h
          ∧ tensors h `prefix_of` tensors h'.
Proof.
  induction xs as [|x xs IH]; intros Hall Hbad h Hpre; [by apply Exists_nil in Hbad|].
  apply Forall_cons in Hall as [Hx Hall]. apply Exists_cons in Hbad.
  destruct x as [u|y].
  - destruct Hbad as [(y & v & [=] & _)|Hbad].
    destruct (IH Hall Hbad h Hpre) as (h' & Hrun & Ho & Ht).
    exists h'. split; [|done]. simpl.
    rewrite (bind_Ok _ _ h h u) by done. by apply bind_Raise.
  - destruct (Hx y eq_refl) as [v Hv0].
    pose proof (coerced_prefix _ _ _ _ Hpre Hv0) as Hv.
    destruct (issubdtype_number (get_dtype v)) eqn:Hnum.
    + destruct Hbad as [(y' & v' & [= <-] & Hv' & Hnum')|Hbad]; [congruence|].
      pose proof (Tensor_init_array_run y true false None h v Hv Hnum) as Hrun.
      match type of Hrun with _ = (?ha, _) => set (h_a := ha) in * end.
      destruct (IH Hall Hbad h_a) as (h' & Hrun' & Ho & Ht).
      { etrans; [exact Hpre|]. destruct y; simpl; [done | by apply prefix_app_r]. }
      exists h'. split; [|split; [done|]].
      * simpl. rewrite (bind_Ok _ _ _ _ _ Hrun). by apply bind_Raise.
      * etrans; [|exact Ht]. by apply prefix_app_r.
    + destruct (Tensor_init_array_TypeError y true false None h v Hv Hnum)
        as (h' & Hrun & Ht & Ho).
      exists h'. split; [|split; [done | by rewrite Ht]].
      simpl. by apply bind_Raise.
Qed.

(** X3: when every input of [_op] that is not a Tensor can be coerced to
    an array and one of these arrays is not numeric, [_op] raises the
    TypeError of the constructor during the coercion of its inputs: no
    operation is instantiated and no existing Tensor changes. *)
Theorem op_rejects_non_numeric_input Op input_vars op_args op_kwargs h :
  Forall (λ x, ∀ y, x = PyArray y → is_Some (coerced y h)) input_vars →
  Exists (λ x, ∃ y v, x = PyArray y ∧ coerced y h = Some v
                      ∧ issubdtype_number (get_dtype v) = false) input_vars →
  ∃ h', _op Op input_vars op_args op_kwargs h
          = (h', Raise (Exception (TypeError "Tensor data must be a numeric type")))
        ∧ operations h' = operations h
        ∧ tensors h `prefix_of` tensors h'.
Proof.
  intros Hall Hbad.
  destruct (traverse_coerce_TypeError input_vars h Hall Hbad h) as (h' & Hrun & ? & ?);
    [done|].
  exists h'. split; [|done]. unfold _op. by apply bind_Raise.
Qed.

(** ** Flags of results *)

Lemma all_constant_none_scalar_only Vs :
  forallb _constant Vs = true →
  existsb (λ V, _scalar_only V && negb (_constant V)) Vs = false.
Proof.
  induction Vs as [|V Vs IH]; simpl; [done|].
  intros [HV HVs]%andb_prop. rewrite HV, IH by done. by rewrite andb_false_r.
Qed.

(** X4: a Tensor made by [_op] is never both constant and [scalar_only],
    whatever the operation class declares. *)
Theorem op_constant_never_scalar_only Op input_vars op_args op_kwargs h h' t T :
  _op Op input_vars op_args op_kwargs h = (h', Ok t) →
  tensors h' !! t = Some T →
  _constant T = true →
  _scalar_only T = false.
Proof.
  intros H HT Hc. apply _op_Ok_heap in H as (h1 & vs & Vs & out & _ & _ & -> & ->).
  cbn [tensors] in HT. rewrite lookup_snoc in HT. injection HT as <-.
  cbn [_constant _scalar_only] in *.
  rewrite scalar_only_loop_spec. rewrite (all_constant_none_scalar_only _ Hc).
  rewrite Hc. simpl. by rewrite andb_false_r.
Qed.

(** The result of [_op] on one Tensor. *)
Lemma _op_unary Op s op_args op_kwargs h h' t :
  _op Op [PyTensor s] op_args op_kwargs h = (h', Ok t) →
  ∃ S T O,
    tensors h !! s = Some S
    ∧ tensors h' = tensors h ++ [T]
    ∧ t = length (tensors h)
    ∧ grad T = None
    ∧ _creator T = Some (length (operations h))
    ∧ operations h' = operations h ++ [O]
    ∧ op_class O = Op
    ∧ _constant T = _constant S
    ∧ _scalar_only T = (op_scalar_only Op || _scalar_only S) && negb (_constant S).
Proof.
  intros H. apply _op_Ok_heap in H as (h1 & vs & Vs & out & Hvs & HVs & -> & ->).
  simpl in Hvs. unfold bind, ret in Hvs. simpl in Hvs. injection Hvs as <- <-.
  apply Forall2_cons_inv_l in HVs as (S & Vs' & HS & HVs & ->).
  apply Forall2_nil_inv_l in HVs as ->.
  eexists S, _, _. cbn [tensors arrays operations grad _creator _constant _scalar_only op_class].
  do 7 (split; [done|]).
  rewrite scalar_only_loop_spec. simpl.
  split; [by rewrite andb_true_r|].
  by destruct (op_scalar_only Op), (_scalar_only S), (_constant S).
Qed.

(** The result of [_op] on a Tensor and an input that is not a Tensor, in
    either order. *)
Lemma _op_binary_raw Op (reflected : bool) s S y op_args op_kwargs h h' t :
  tensors h !! s = Some S →
  _op Op (if reflected then [PyArray y; PyTensor s] else [PyTensor s; PyArray y])
      op_args op_kwargs h = (h', Ok t) →
  ∃ C T O v,
    tensors h' = tensors h ++ [C; T]
    ∧ t = Datatypes.S (length (tensors h))
    ∧ constant_leaf C
    ∧ coerced y h = Some v
    ∧ arrays h' !! data C = Some v
    ∧ grad T = None
    ∧ _creator T = Some (length (operations h))
    ∧ operations h' = operations h ++ [O]
    ∧ op_class O = Op
    ∧ _constant T = _constant S
    ∧ _scalar_only T = (op_scalar_only Op || _scalar_only S) && negb (_constant S).
Proof.
  intros HS H. apply _op_Ok_heap in H as (h1 & vs & Vs & out & Hvs & HVs & -> & ->).
  pose proof (lookup_lt_Some _ _ _ HS) as Hs.
  assert (∃ C v, tensors h1 = tensors h ++ [C] ∧ constant_leaf C
                 ∧ operations h1 = operations h
                 ∧ coerced y h = Some v ∧ arrays h1 !! data C = Some v
                 ∧ vs = (if reflected then [length (tensors h); s]
                         else [s; length (tensors h)]))
    as (C & v & Hts & HC & Hops & Hy & HdC & ->).
  { destruct reflected; simpl in Hvs.
    - apply bind_Ok_inv in Hvs as (ha & c & Hc & Hvs).
      unfold bind, ret in Hvs. simpl in Hvs. injection Hvs as <- <-.
      apply Tensor_init_array_Ok_inv in Hc as (v & Hv & _ & -> & ->). simpl.
      eexists _, v. split; [done|]. split; [done|]. split; [done|]. split; [done|].
      split; [|done]. destruct y; simpl in *; [done|].
      injection Hv as ->. apply lookup_snoc.
    - unfold bind at 1, ret at 1 in Hvs.
      apply bind_Ok_inv in Hvs as (ha & cs & Hc & Hvs).
      apply bind_Ok_inv in Hc as (hb & c & Hc & Hcs).
      unfold bind, ret in Hcs, Hvs. simpl in Hcs, Hvs.
      injection Hcs as <- <-. injection Hvs as <- <-.
      apply Tensor_init_array_Ok_inv in Hc as (v & Hv & _ & -> & ->). simpl.
      eexists _, v. split; [done|]. split; [done|]. split; [done|]. split; [done|].
      split; [|done]. destruct y; simpl in *; [done|].
      injection Hv as ->. apply lookup_snoc. }
  assert (Vs = if reflected then [C; S] else [S; C]) as ->.
  { rewrite Hts in HVs. destruct reflected.
    - apply Forall2_cons_inv_l in HVs as (C' & Vs' & HC' & HVs & ->).
      apply Forall2_cons_inv_l in HVs as (S' & Vs'' & HS' & HVs & ->).
      apply Forall2_nil_inv_l in HVs as ->.
      rewrite lookup_snoc in HC'. rewrite lookup_app_l in HS' by done. congruence.
    - apply Forall2_cons_inv_l in HVs as (S' & Vs' & HS' & HVs & ->).
      apply Forall2_cons_inv_l in HVs as (C' & Vs'' & HC' & HVs & ->).
      apply Forall2_nil_inv_l in HVs as ->.
      rewrite lookup_snoc in HC'. rewrite lookup_app_l in HS' by done. congruence. }
  eexists C, _, _, v. cbn [tensors arrays operations]. rewrite Hts, Hops, <- app_assoc.
  split; [done|]. split; [rewrite length_app; simpl; lia|]. split; [done|].
  split; [done|].
  split; [apply lookup_app_l_Some; done|]. cbn [grad _creator _constant _scalar_only op_class].
  do 4 (split; [done|]).
  destruct HC as (HcC & HsC & _ & _). rewrite scalar_only_loop_spec.
  destruct reflected; simpl; rewrite HcC, HsC; simpl;
    split; by destruct (op_scalar_only Op), (_scalar_only S), (_constant S).
Qed.

(** The result of [_op] on two Tensors. *)
Lemma _op_binary_tensors Op a b A B op_args op_kwargs h h' t :
  tensors h !! a = Some A →
  tensors h !! b = Some B →
  _op Op [PyTensor a; PyTensor b] op_args op_kwargs h = (h', Ok t) →
  ∃ T O,
    tensors h' = tensors h ++ [T]
    ∧ t = length (tensors h)
    ∧ grad T = None
    ∧ _creator T = Some (length (operations h))
    ∧ operations h' = operations h ++ [O]
    ∧ op_class O = Op
    ∧ _constant T = _constant A && _constant B
    ∧ _scalar_only T
      = (op_scalar_only Op && negb (_constant A && _constant B))
        || (_scalar_only A && negb (_constant A))
        || (_scalar_only B && negb (_constant B)).
Proof.
  intros HA HB H. apply _op_Ok_heap in H as (h1 & vs & Vs & out & Hvs & HVs & -> & ->).
  simpl in Hvs. unfold bind, ret in Hvs. simpl in Hvs. injection Hvs as <- <-.
  apply Forall2_cons_inv_l in HVs as (A' & Vs' & HA' & HVs & ->).
  apply Forall2_cons_inv_l in HVs as (B' & Vs'' & HB' & HVs & ->).
  apply Forall2_nil_inv_l in HVs as ->.
  assert (A' = A) as -> by congruence. assert (B' = B) as -> by congruence.
  eexists _, _. cbn [tensors arrays operations grad _creator _constant _scalar_only op_class].
  do 6 (split; [done|]). rewrite scalar_only_loop_spec. simpl.
  rewrite !andb_true_r, !orb_false_r. split; [done|]. by rewrite orb_assoc.
Qed.

End MoreProperties.

Section GraphProperties.
Context `{NP : NumPy}.

(** ** Back-propagation and reset touch upstream gradients only *)

Lemma within_refl t h : within t h h.
Proof. split; [apply same_graph_refl | by left]. Qed.

Lemma within_trans t h1 h2 h3 : within t h1 h2 → within t h2 h3 → within t h1 h3.
Proof.
  intros [Hs Hu] [Hs' Hu']. split; [by eapply same_graph_trans|].
  intros u. destruct (Hu' u) as [E'|Hup'].
  - destruct (Hu u) as [E|Hup]; [left; congruence | by right].
  - right. eapply upstream_same_graph; [apply same_graph_sym, Hs | done].
Qed.

Lemma within_lift v t h h' :
  (∀ u, upstream h v u → upstream h t u) → within v h h' → within t h h'.
Proof. intros Hvt [Hs Hu]. split; [done|]. intros u. destruct (Hu u); auto. Qed.

Lemma within_set_grad h t T g :
  tensors h !! t = Some T →
  within t h {| arrays := arrays h; tensors := <[t := with_grad g T]> (tensors h);
                operations := operations h |}.
Proof.
  intros HT. split; [by apply same_graph_set_grad|]. simpl.
  intros u. destruct (decide (u = t)) as [->|Hne]; [right; constructor|].
  left. by apply list_lookup_insert_ne.
Qed.

Lemma bind_cases {A B} (c : M A) (k : A → M B) h :
  (∃ h1 a, c h = (h1, Ok a) ∧ bind c k h = k a h1)
  ∨ (∃ h1 e, c h = (h1, Raise e) ∧ bind c k h = (h1, Raise e)).
Proof. unfold bind. destruct (c h) as [h1 [a|e]]; [left | right]; eauto. Qed.

(** A loop over the inputs of the creator of [t] whose body stays within
    the input it is called on stays within [t]. *)
Lemma for_each_within (body : nat → nat → M unit) vars i t h :
  (∀ i v h, v ∈ vars → well_formed h → within v h (body i v h).1) →
  well_formed h →
  (∀ v u, v ∈ vars → upstream h v u → upstream h t u) →
  within t h (for_each body i vars h).1.
Proof.
  revert i h. induction vars as [|v vars IH]; intros i h Hbody Hwf Hup.
  - apply within_refl.
  - rewrite for_each_cons.
    assert (Hv : within t h (body i v h).1).
    { eapply within_lift; [|apply Hbody; [by left | done]]. intros u. apply Hup. by left. }
    destruct (bind_cases (body i v) (λ _, for_each body (S i) vars) h)
      as [(h1 & [] & E & ->)|(h1 & e & E & ->)]; rewrite E in Hv; simpl in Hv; [|done].
    eapply within_trans; [exact Hv|]. apply IH.
    + intros j w g Hw. apply Hbody. by right.
    + eapply well_formed_same_graph; [apply Hv | done].
    + intros w u Hw Hwu.
      eapply upstream_same_graph; [apply Hv|]. apply (Hup w); [by right|].
      eapply upstream_same_graph; [apply same_graph_sym, Hv | done].
Qed.

Lemma upstream_of_input h t T f O v u :
  tensors h !! t = Some T → _creator T = Some f → operations h !! f = Some O →
  v ∈ variables O → upstream h v u → upstream h t u.
Proof. intros. by eapply upstream_input. Qed.

Lemma Tensor_backward_within n : ∀ t g h,
  well_formed h → t < n → within t h (Tensor_backward n t g h).1.
Proof.
  induction n as [|n IH]; intros t g h Hwf Hn; [lia|].
  rewrite Tensor_backward_S.
  destruct (bind_reads (get_tensor t)
              (λ T, gv <- seed_of T g ;;
                 new <- lift (accumulate (grad T) gv) ;;
                 set_grad t (Some new) ;;;
                 match _creator T with
                 | Some f => Operation_backward (Tensor_backward n) f gv
                 | None => ret tt
                 end) h (reads_get_tensor _)) as [(T & HT & ->)|(e & _ & _ & ->)];
    [|apply within_refl].
  apply get_tensor_Ok_inv in HT as [_ HT].
  destruct (bind_reads (seed_of T g)
              (λ gv, new <- lift (accumulate (grad T) gv) ;;
                 set_grad t (Some new) ;;;
                 match _creator T with
                 | Some f => Operation_backward (Tensor_backward n) f gv
                 | None => ret tt
                 end) h (reads_seed_of _ _)) as [(gv & _ & ->)|(e & _ & _ & ->)];
    [|apply within_refl].
  destruct (bind_reads (lift (accumulate (grad T) gv))
              (λ new, set_grad t (Some new) ;;;
                 match _creator T with
                 | Some f => Operation_backward (Tensor_backward n) f gv
                 | None => ret tt
                 end) h (reads_lift _)) as [(new & _ & ->)|(e & _ & _ & ->)];
    [|apply within_refl].
  rewrite (bind_Ok _ _ _ _ _ (set_grad_Some _ _ _ (Some new) HT)).
  pose proof (within_set_grad h t T (Some new) HT) as H0.
  set (h0 := {| arrays := arrays h; tensors := <[t := with_grad (Some new) T]> (tensors h);
                operations := operations h |}) in *.
  destruct (_creator T) as [f|] eqn:Hcr; [|done].
  eapply within_trans; [exact H0|].
  assert (Hwf0 : well_formed h0) by (eapply well_formed_same_graph; [apply H0 | done]).
  destruct (Hwf t T HT) as [_ Hf]. destruct (Hf f Hcr) as (O & HO & Hvars).
  rewrite Operation_backward_eq.
  rewrite (bind_Ok _ _ _ _ _ (get_operation_Some h0 f O HO)).
  destruct (bind_reads (input_arrays (variables O))
              (λ ins, for_each (backward_body (Tensor_backward n)
                                  (op_backward_var (op_class O) ins gv))
                               0 (variables O)) h0
              (reads_input_arrays _)) as [(ins & _ & ->)|(e & _ & _ & ->)];
    [|apply within_refl].
  apply for_each_within; [|done|].
  - intros i v g' Hv Hwf'. unfold backward_body.
    destruct (bind_reads (lift (op_backward_var (op_class O) ins gv i))
                (λ contrib, V <- get_tensor v ;;
                   if _constant V then ret tt
                   else Tensor_backward n v (Some (PyArray (Literal contrib)))) g'
                (reads_lift _)) as [(contrib & _ & ->)|(e & _ & _ & ->)];
      [|apply within_refl].
    destruct (bind_reads (get_tensor v)
                (λ V, if _constant V then ret tt
                      else Tensor_backward n v (Some (PyArray (Literal contrib)))) g'
                (reads_get_tensor _)) as [(V & _ & ->)|(e & _ & _ & ->)];
      [|apply within_refl].
    destruct (_constant V); [apply within_refl|].
    apply IH; [done|]. eapply Forall_forall in Hvars; [|exact Hv]. simpl in Hvars. lia.
  - intros v u Hv Hvu.
    eapply (upstream_of_input h0 t (with_grad (Some new) T) f O v u); try done.
    simpl. apply list_lookup_insert_eq. by eapply lookup_lt_Some.
Qed.

Lemma Tensor_null_gradients_within n : ∀ t h,
  well_formed h → t < n → within t h (Tensor_null_gradients n t h).1.
Proof.
  induction n as [|n IH]; intros t h Hwf Hn; [lia|]. simpl.
  destruct (tensors h !! t) as [T|] eqn:HT.
  2:{ unfold bind, set_grad, bind, get_tensor. rewrite HT. simpl. apply within_refl. }
  rewrite (bind_Ok _ _ _ _ _ (set_grad_Some _ _ _ None HT)).
  pose proof (within_set_grad h t T None HT) as H0.
  set (h0 := {| arrays := arrays h; tensors := <[t := with_grad None T]> (tensors h);
                operations := operations h |}) in *.
  assert (HT0 : tensors h0 !! t = Some (with_grad None T)).
  { simpl. apply list_lookup_insert_eq. by eapply lookup_lt_Some. }
  rewrite (bind_Ok _ _ _ _ _ (get_tensor_Some _ _ _ HT0)). simpl.
  destruct (_creator T) as [f|] eqn:Hcr; [|done].
  eapply within_trans; [exact H0|].
  assert (Hwf0 : well_formed h0) by (eapply well_formed_same_graph; [apply H0 | done]).
  destruct (Hwf t T HT) as [_ Hf]. destruct (Hf f Hcr) as (O & HO & Hvars).
  unfold Operation_null_gradients.
  rewrite (bind_Ok _ _ _ _ _ (get_operation_Some h0 f O HO)).
  apply for_each_within; [|done|].
  - intros i v g' Hv Hwf'. apply IH; [done|].
    eapply Forall_forall in Hvars; [|exact Hv]. simpl in Hvars. lia.
  - intros v u Hv Hvu.
    by eapply (upstream_of_input h0 t (with_grad None T) f O v u).
Qed.

Lemma same_node_no_grad T T' :
  same_node T T' → grad T' = None → T' = with_grad None T.
Proof.
  destruct T, T'. unfold same_node, with_grad. simpl. intros (-> & -> & -> & ->) ->. done.
Qed.

Lemma upstream_le h t u : well_formed h → upstream h t u → u ≤ t.
Proof.
  intros Hwf. induction 1 as [t|t T f O v u HT Hc HO Hv _ IH]; [done|].
  destruct (Hwf t T HT) as [_ Hf]. destruct (Hf f Hc) as (O' & HO' & Hvars).
  assert (O' = O) as -> by congruence.
  eapply Forall_forall in Hvars; [|exact Hv]. simpl in Hvars. lia.
Qed.

(** X9: on a well-formed graph and with enough call depth,
    [t.backward(g)] (whatever it returns or raises) changes gradient
    buffers only: arrays, operations, and the data, flags and creator of
    every Tensor are as before, and so is the whole record of every
    Tensor that is not upstream of [t]. The graph invariants still hold
    afterwards. *)
Theorem backward_touches_upstream_gradients_only fuel t g h :
  well_formed h →
  t < fuel →
  ∃ h' r,
    Tensor_backward fuel t g h = (h', r)
    ∧ r ≠ Raise OutOfFuel
    ∧ same_graph h h'
    ∧ (∀ u, ¬ upstream h t u → tensors h' !! u = tensors h !! u)
    ∧ well_formed h'
    ∧ (numeric_data h → numeric_data h').
Proof.
  intros Hwf Hfuel.
  destruct (Tensor_backward_frame fuel t g h Hwf Hfuel) as (h' & r & Hrun & Hr & Hs & _).
  pose proof (Tensor_backward_within fuel t g h Hwf Hfuel) as [_ Hu].
  rewrite Hrun in Hu. simpl in Hu.
  exists h', r. split; [done|]. split; [done|]. split; [done|].
  split; [|split].
  - intros u Hnot. by destruct (Hu u).
  - by eapply well_formed_same_graph.
  - by apply numeric_data_same_graph.
Qed.

(** X10: on a well-formed graph and with enough call depth, the heap
    after [t.null_gradients()] is the heap before with the gradient of
    every Tensor upstream of [t] made absent: the record of a Tensor that is
    not upstream is as before, arrays and operations are as before, and
    no Tensor is added or removed. *)
Theorem null_gradients_result fuel t h :
  well_formed h →
  t < length (tensors h) →
  t < fuel →
  ∃ h',
    Tensor_null_gradients fuel t h = (h', Ok tt)
    ∧ arrays h' = arrays h
    ∧ operations h' = operations h
    ∧ length (tensors h') = length (tensors h)
    ∧ ∀ u T, tensors h !! u = Some T →
        (upstream h t u → tensors h' !! u = Some (with_grad None T))
        ∧ (¬ upstream h t u → tensors h' !! u = Some T).
Proof.
  intros Hwf Hl Hfuel.
  destruct (null_gradients_run fuel t h Hwf Hfuel Hl) as (h' & Hrun & [Hs _] & Hup).
  pose proof (Tensor_null_gradients_within fuel t h Hwf Hfuel) as [_ Hu].
  rewrite Hrun in Hu. simpl in Hu.
  exists h'. split; [done|]. split; [apply Hs|]. split; [apply Hs|].
  split; [by apply same_graph_length|].
  intros u T HT. split.
  - intros Hu'. specialize (Hup u Hu'). unfold grad_of in Hup.
    destruct (same_graph_lookup _ _ _ _ Hs HT) as (T' & HT' & Hn).
    rewrite HT' in Hup. simpl in Hup. injection Hup as Hg.
    by rewrite HT', (same_node_no_grad _ _ Hn Hg).
  - intros Hnot. destruct (Hu u) as [E|]; [congruence | done].
Qed.

(** X11: on a well-formed graph whose Tensors upstream of [t] have no
    gradient, [t.null_gradients()] after [t.backward(g)] restores the heap
    as it was before the two calls, whatever gradient was given and whether
    [backward] returned or raised. *)
Theorem null_gradients_undoes_backward fuel t g h :
  well_formed h →
  t < length (tensors h) →
  t < fuel →
  (∀ u, upstream h t u → grad_of h u = Some None) →
  Tensor_null_gradients fuel t (Tensor_backward fuel t g h).1 = (h, Ok tt).
Proof.
  intros Hwf Hl Hfuel Hnone.
  pose proof (Tensor_backward_within fuel t g h Hwf Hfuel) as [Hs1 Hu1].
  set (h1 := (Tensor_backward fuel t g h).1) in *.
  assert (Hwf1 : well_formed h1) by (by eapply well_formed_same_graph).
  assert (Hl1 : t < length (tensors h1)) by (by rewrite (same_graph_length _ _ Hs1)).
  destruct (null_gradients_run fuel t h1 Hwf1 Hfuel Hl1) as (h2 & Hrun & [Hs2 _] & Hup).
  pose proof (Tensor_null_gradients_within fuel t h1 Hwf1 Hfuel) as [_ Hu2].
  rewrite Hrun in *. simpl in Hu2. f_equal.
  pose proof (same_graph_trans _ _ _ Hs1 Hs2) as Hs.
  destruct Hs as (Ha & Ho & Hts). destruct h as [ha hts ho], h2 as [ha2 hts2 ho2].
  simpl in Ha, Ho. subst ha2 ho2. f_equal.
  apply list_eq. intros u.
  assert (Hcase : upstream {| arrays := ha; tensors := hts; operations := ho |} t u →
                  hts2 !! u = hts !! u).
  { intros Hu. pose proof (Hnone u Hu) as Hg. unfold grad_of in Hg. simpl in Hg.
    destruct (hts !! u) as [T|] eqn:HT; [|done]. simpl in Hg. injection Hg as Hg.
    destruct (Forall2_lookup_l _ _ _ _ _ Hts HT) as (T2 & HT2 & Hn).
    assert (Hg2 : grad T2 = None).
    { specialize (Hup u (upstream_same_graph _ _ _ _ Hs1 Hu)).
      unfold grad_of in Hup. simpl in Hup, HT2. rewrite HT2 in Hup. by injection Hup. }
    simpl in HT2. rewrite HT2, (same_node_no_grad _ _ Hn Hg2).
    by rewrite <- Hg, with_grad_id. }
  destruct (Hu2 u) as [E2|Hup2].
  - destruct (Hu1 u) as [E1|Hup1]; [simpl in *; congruence | by apply Hcase].
  - apply Hcase. eapply upstream_same_graph; [apply same_graph_sym, Hs1 | done].
Qed.

(** ** The invariants under construction *)

Lemma invariants_new_array h v :
  well_formed h ∧ numeric_data h →
  well_formed {| arrays := arrays h ++ [v]; tensors := tensors h;
                 operations := operations h |}
  ∧ numeric_data {| arrays := arrays h ++ [v]; tensors := tensors h;
                    operations := operations h |}.
Proof.
  intros [Hwf Hnum]. split.
  - intros t T HT. simpl in *. destruct (Hwf t T HT) as [[d Hd] Hcr].
    split; [|done]. exists d. by apply lookup_app_l_Some.
  - intros t T HT. simpl in *. destruct (Hnum t T HT) as (a & Ha & ?).
    exists a. split; [by apply lookup_app_l_Some | done].
Qed.

(** X12: constructing a leaf Tensor (from an array-like input or from a
    Tensor) and copying a Tensor keep the graph invariants: every Tensor
    holds an existing numeric array, and the inputs of every creator were
    constructed before its output. On a heap with these invariants the copy
    of an existing Tensor always succeeds, and a later update of the
    original's array does not reach the copy's array. *)
Theorem construction_keeps_invariants h :
  well_formed h ∧ numeric_data h →
  (∀ x constant so h' t,
     Tensor_init x constant so None h = (h', Ok t) →
     well_formed h' ∧ numeric_data h')
  ∧ (∀ t T, tensors h !! t = Some T →
       ∃ h' c C a,
         Tensor_copy t h = (h', Ok c)
         ∧ well_formed h' ∧ numeric_data h'
         ∧ tensors h' !! c = Some C
         ∧ arrays h' !! data C = Some a
         ∧ ∀ v, arrays (array_store (data T) v h') !! data C = Some a).
Proof.
  intros Hinv. split.
  - intros x constant so h' t H. by eapply Tensor_init_leaf_invariant.
  - intros t T HT. destruct Hinv as [Hwf Hnum].
    destruct (Hnum t T HT) as (a & Ha & Hd).
    pose proof (lookup_lt_Some _ _ _ Ha) as Hlt.
    set (h1 := {| arrays := arrays h ++ [a]; tensors := tensors h;
                  operations := operations h |}).
    assert (Hrun : Tensor_copy t h
                   = ({| arrays := arrays h ++ [a];
                         tensors := tensors h ++
                           [{| data := length (arrays h); grad := None;
                               _constant := _constant T; _scalar_only := _scalar_only T;
                               _creator := None |}];
                         operations := operations h |}, Ok (length (tensors h)))).
    { unfold Tensor_copy. rewrite (bind_Ok _ _ _ _ _ (get_tensor_Some _ _ _ HT)).
      rewrite (bind_Ok _ _ h h1 (length (arrays h))).
      2:{ unfold np_copy. by rewrite (bind_Ok _ _ _ _ _ (get_array_Some _ _ _ Ha)). }
      apply (Tensor_init_array_run (Ndarray (length (arrays h))) _ _ None h1 a);
        [apply lookup_snoc | done]. }
    eexists _, _, _, a. split; [exact Hrun|].
    destruct (Tensor_init_leaf_invariant
                (PyArray (Ndarray (length (arrays h)))) (_constant T) (_scalar_only T)
                h1 _ _
                (Tensor_init_array_run (Ndarray (length (arrays h))) _ _ None h1 a
                   (lookup_snoc _ _) Hd)
                (invariants_new_array h a (conj Hwf Hnum))) as [Hwf' Hnum'].
    split; [exact Hwf'|]. split; [exact Hnum'|]. simpl.
    split; [apply lookup_snoc|]. split; [apply lookup_snoc|].
    intros v. cbn [data]. rewrite list_lookup_insert_ne by lia. apply lookup_snoc.
Qed.

(** X13: a successful [_op] keeps the graph invariants: the result holds
    an existing numeric array, and the inputs of its creator are Tensors
    constructed before it, so that no chain of operations makes a cycle. *)
Theorem op_keeps_invariants Op input_vars op_args op_kwargs h h' t :
  well_formed h ∧ numeric_data h →
  _op Op input_vars op_args op_kwargs h = (h', Ok t) →
  well_formed h' ∧ numeric_data h'.
Proof. intros Hinv H. by eapply _op_invariant. Qed.

End GraphProperties.

Section OperatorProperties.
Context `{NP : NumPy} `{CAT : !Catalogue}.

Lemma binary_operators_unfold m Op (reflected : bool) s other :
  (m, (Op, reflected)) ∈ binary_operators →
  m s other
  = _op Op (if reflected then [other; PyTensor s] else [PyTensor s; other]) [] [].
Proof.
  unfold binary_operators. rewrite !elem_of_cons, elem_of_nil.
  intros [H|[H|[H|[H|[H|[H|[H|[H|[]]]]]]]]]; by injection H as -> -> ->.
Qed.

(** X5: for each of the operators [+], [-], [*], [/] and their reflected
    forms, applied to an existing Tensor [s] and an operand that is not a
    Tensor: when the call returns, it has added exactly two Tensors, a
    constant leaf holding the coerced operand and the result; the result is
    constant exactly when [s] is, it is [scalar_only] exactly when [s] is
    not constant and [s] or the operation class is [scalar_only], and its
    creator is a new operation of the operator's class. *)
Theorem binary_operator_with_raw_operand m Op (reflected : bool) s S y h h' t :
  (m, (Op, reflected)) ∈ binary_operators →
  tensors h !! s = Some S →
  m s (PyArray y) h = (h', Ok t) →
  ∃ C T O v,
    tensors h' = tensors h ++ [C; T]
    ∧ t = Datatypes.S (length (tensors h))
    ∧ constant_leaf C
    ∧ coerced y h = Some v
    ∧ arrays h' !! data C = Some v
    ∧ grad T = None
    ∧ _creator T = Some (length (operations h))
    ∧ operations h' = operations h ++ [O]
    ∧ op_class O = Op
    ∧ _constant T = _constant S
    ∧ _scalar_only T = (op_scalar_only Op || _scalar_only S) && negb (_constant S).
Proof.
  intros Hm HS H. rewrite (binary_operators_unfold _ _ _ _ _ Hm) in H.
  by eapply _op_binary_raw.
Qed.

(** X6: for each of the operators and their reflected forms, applied to
    two existing Tensors (possibly the same one): when the call returns, it
    has added exactly one Tensor, the result, whose [constant] flag is the
    conjunction of the operands' flags and whose creator is a new operation
    of the operator's class; both operands are as they were. *)
Theorem binary_operator_with_tensor_operand m Op (reflected : bool) s S u U h h' t :
  (m, (Op, reflected)) ∈ binary_operators →
  tensors h !! s = Some S →
  tensors h !! u = Some U →
  m s (PyTensor u) h = (h', Ok t) →
  ∃ T O,
    tensors h' = tensors h ++ [T]
    ∧ t = length (tensors h)
    ∧ tensors h' !! s = Some S
    ∧ tensors h' !! u = Some U
    ∧ grad T = None
    ∧ _creator T = Some (length (operations h))
    ∧ operations h' = operations h ++ [O]
    ∧ op_class O = Op
    ∧ _constant T = _constant S && _constant U
    ∧ _scalar_only T
      = (op_scalar_only Op && negb (_constant S && _constant U))
        || (_scalar_only S && negb (_constant S))
        || (_scalar_only U && negb (_constant U)).
Proof.
  intros Hm HS HU H. rewrite (binary_operators_unfold _ _ _ _ _ Hm) in H.
  destruct reflected.
  - destruct (_op_binary_tensors _ _ _ _ _ _ _ _ _ _ HU HS H)
      as (T & O & Hts & -> & ? & ? & ? & ? & Hc & Hso).
    exists T, O. rewrite Hts, !lookup_app_l by (by eapply lookup_lt_Some).
    do 8 (split; [done|]). rewrite Hc, Hso. split; [apply andb_comm|].
    by destruct (op_scalar_only Op), (_scalar_only S), (_constant S),
                (_scalar_only U), (_constant U).
  - destruct (_op_binary_tensors _ _ _ _ _ _ _ _ _ _ HS HU H)
      as (T & O & Hts & -> & ? & ? & ? & ? & Hc & Hso).
    exists T, O. rewrite Hts, !lookup_app_l by (by eapply lookup_lt_Some). done.
Qed.

(** X7: [-s] and [~s] are the same computation. When it returns, it has
    added a constant leaf holding -1 and then the result, whose creator is
    a new operation of the class [Multiply]; the result is constant exactly
    when [s] is, and [s] is as it was. [+s] is [s] itself and touches
    nothing. *)
Theorem negation_is_a_product s S h h' t :
  tensors h !! s = Some S →
  Tensor_neg s h = (h', Ok t) →
  Tensor_invert s h = (h', Ok t)
  ∧ Tensor_pos s h = (h, Ok s)
  ∧ ∃ C T O,
      tensors h' = tensors h ++ [C; T]
      ∧ t = Datatypes.S (length (tensors h))
      ∧ constant_leaf C
      ∧ arrays h' !! data C = Some np_minus_one
      ∧ _creator T = Some (length (operations h))
      ∧ operations h' = operations h ++ [O]
      ∧ op_class O = Multiply
      ∧ _constant T = _constant S
      ∧ _scalar_only T
        = (op_scalar_only Multiply || _scalar_only S) && negb (_constant S).
Proof.
  intros HS H. split; [exact H|]. split; [done|].
  destruct (_op_binary_raw Multiply true s S (Literal np_minus_one) [] [] h h' t HS H)
    as (C & T & O & v & ? & ? & ? & Hv & ? & ? & ? & ? & ? & ? & ?).
  simpl in Hv. injection Hv as <-. by exists C, T, O.
Qed.

(** X8: when [s.sum(axis, keepdims)] returns, it has added exactly one
    Tensor, the result, whose creator is a new operation of the class
    [Sum]; the result is constant exactly when [s] is, and [scalar_only]
    exactly when [s] is not constant and [s] or [Sum] is [scalar_only];
    [s] is as it was. *)
Theorem sum_result s axis keepdims h h' t :
  Tensor_sum s axis keepdims h = (h', Ok t) →
  ∃ S T O,
    tensors h !! s = Some S
    ∧ tensors h' !! s = Some S
    ∧ tensors h' = tensors h ++ [T]
    ∧ t = length (tensors h)
    ∧ grad T = None
    ∧ _creator T = Some (length (operations h))
    ∧ operations h' = operations h ++ [O]
    ∧ op_class O = Sum
    ∧ _constant T = _constant S
    ∧ _scalar_only T = (op_scalar_only Sum || _scalar_only S) && negb (_constant S).
Proof.
  intros H. apply _op_unary in H as (S & T & O & HS & Hts & ?).
  exists S, T, O. split; [done|]. split; [|done].
  rewrite Hts. by apply lookup_app_l_Some.
Qed.

End OperatorProperties.





(** * The reference model: laws, runs and instances *)

Section RefFacts.
Import RefNumPy.

Lemma broadcast_axes_same s : broadcast_axes s s = Some s.
Proof. induction s as [|d s IH]; simpl; [done|]. by rewrite IH, decide_True. Qed.

Lemma broadcast_shapes_same s : broadcast_shapes s s = Some s.
Proof.
  unfold broadcast_shapes, pad_shape.
  rewrite Nat.max_id, Nat.sub_diag. simpl. apply broadcast_axes_same.
Qed.

#[export] Instance ref_numpy_laws : NumPyLaws (NP := ref_numpy).
Proof.
  split; try done.
  intros a b Ha Hb Hs. simpl in *. unfold ref_add. rewrite <- Hs, broadcast_shapes_same.
  destruct (a_dtype a), (a_dtype b); try done; simpl; eexists; (split; [done|]); done.
Qed.

Lemma well_formedb_spec `{NP : NumPy} (h : heap) : well_formedb h = true → well_formed h.
Proof.
  unfold well_formedb. intros H t T HT.
  rewrite forallb_forall in H. specialize (H (t, T)). simpl in H.
  apply andb_prop in H as [Hd Hc].
  2:{ apply list_elem_of_In, elem_of_lookup_imap. eauto. }
  apply bool_decide_eq_true in Hd. split; [by apply lookup_lt_is_Some_2|].
  intros f Hf. rewrite Hf in Hc. destruct (operations h !! f) as [op|]; [|done].
  exists op. split; [done|]. rewrite forallb_forall in Hc.
  apply Forall_forall. intros v Hv. apply list_elem_of_In, Hc in Hv.
  by apply bool_decide_eq_true in Hv.
Qed.

(** ** Runs that show where the code departs from its documentation *)

(** C1: [s = Tensor([1., 2.], _scalar_only=True)] is flagged
    [scalar_only] and has one dimension, yet [s.backward()] raises nothing:
    for every bound on the call depth it returns, and [s.grad] is an array
    of ones. *)
Theorem backward_ignores_scalar_only (fuel : nat) :
  _scalar_only <$> tensors heap_s !! 0 = Some true
  ∧ ndim <$> arrays heap_s !! 0 = Some 1
  ∧ (Tensor_backward (S fuel) 0 None heap_s).2 = Ok tt
  ∧ grad_of (Tensor_backward (S fuel) 0 None heap_s).1 0 = Some (Some (ref_ones [2])).
Proof. repeat split. Qed.

(** C2: [c = Tensor(1., constant=True)] is constant and has no gradient,
    yet after [c.backward()] its gradient is the array 1. *)
Theorem backward_sets_grad_of_constant (fuel : nat) :
  _constant <$> tensors heap_c !! 0 = Some true
  ∧ grad_of heap_c 0 = Some None
  ∧ (Tensor_backward (S fuel) 0 None heap_c).2 = Ok tt
  ∧ grad_of (Tensor_backward (S fuel) 0 None heap_c).1 0 = Some (Some ref_one).
Proof. repeat split. Qed.

(** C3, as stated, fails: after [v = Tensor([1, 2]); w = Tensor(v)] both
    Tensors hold the array object 0, and storing [[9, 2]] into the array of
    [w] changes the array of [v]. *)
Lemma Tensor_init_from_tensor_not_independent :
  Tensor_init (PyTensor 0) false false None heap_v = (heap_vw, Ok 1)
  ∧ data <$> tensors heap_vw !! 0 = Some 0
  ∧ data <$> tensors heap_vw !! 1 = Some 0
  ∧ arrays heap_vw !! 0 = Some (vector int64 [1; 2]%Z)
  ∧ arrays (array_store 0 (vector int64 [9; 2]%Z) heap_vw) !! 0
    = Some (vector int64 [9; 2]%Z).
Proof. repeat split. Qed.

(** [x = Tensor(3); y = x + x; y.backward()] leaves 2 in [x.grad]. *)
Example add_self_grad_is_two :
  Tensor_add 0 (PyTensor 0) heap_x = (heap_xx, Ok 1)
  ∧ (Tensor_backward 3 1 None heap_xx).2 = Ok tt
  ∧ grad_of heap_xx_back 0 = Some (Some (scalar int64 2))
  ∧ grad_of heap_xx_back 1 = Some (Some (scalar int64 1)).
Proof. repeat split. Qed.

(** ** Instances of the theorems *)

Lemma Tensor_init_rejects_non_numeric_witness :
  coerced (Literal strings_ab) empty_heap = Some strings_ab
  ∧ issubdtype_number (get_dtype strings_ab) = false
  ∧ ∃ h', Tensor_init (PyArray (Literal strings_ab)) false false None empty_heap
            = (h', Raise (Exception (TypeError "Tensor data must be a numeric type")))
          ∧ tensors h' = tensors empty_heap.
Proof.
  split; [reflexivity|]. split; [reflexivity|].
  apply (Tensor_init_rejects_non_numeric (NP := ref_numpy) (Literal strings_ab)
           false false None empty_heap strings_ab); reflexivity.
Defined.

Lemma Tensor_init_from_tensor_shares_witness :
  ∃ h' T,
    Tensor_init (PyTensor 0) true false None heap_v = (h', Ok (length (tensors heap_v)))
    ∧ tensors h' = tensors heap_v ++ [T]
    ∧ arrays h' = arrays heap_v
    ∧ T = {| data := 0; grad := None; _constant := true;
             _scalar_only := false; _creator := None |}
    ∧ ∀ a v, arrays heap_v !! 0 = Some a →
        arrays (array_store (data T) v h') !! 0 = Some v.
Proof.
  apply (Tensor_init_from_tensor_shares (NP := ref_numpy) 0
           {| data := 0; grad := None; _constant := false;
              _scalar_only := false; _creator := None |} true false None heap_v).
  reflexivity.
Defined.

Lemma copy_is_detached_witness :
  ∃ h' c C,
    Tensor_copy 0 heap_v = (h', Ok c)
    ∧ tensors h' !! c = Some C
    ∧ tensors h' !! 0 = Some {| data := 0; grad := None; _constant := false;
                                _scalar_only := false; _creator := None |}
    ∧ arrays h' !! data C = Some (vector int64 [1; 2]%Z)
    ∧ arrays h' !! 0 = Some (vector int64 [1; 2]%Z)
    ∧ _constant C = false
    ∧ _scalar_only C = false
    ∧ _creator C = None
    ∧ grad C = None
    ∧ data C ≠ 0
    ∧ ∀ v, arrays (array_store (data C) v h') !! 0 = Some (vector int64 [1; 2]%Z).
Proof.
  apply (copy_is_detached (NP := ref_numpy) 0
           {| data := 0; grad := None; _constant := false;
              _scalar_only := false; _creator := None |}
           (vector int64 [1; 2]%Z) heap_v); reflexivity.
Defined.

Lemma op_result_scalar_only_witness :
  s_plus_one heap_s = (heap_after s_plus_one heap_s, Ok 2)
  ∧ ∃ h1 vs Vs T,
      traverse coerce [PyTensor 0; PyArray (Literal (scalar int64 1))] heap_s = (h1, Ok vs)
      ∧ Forall2 (λ v V, tensors h1 !! v = Some V) vs Vs
      ∧ tensors (heap_after s_plus_one heap_s) !! 2 = Some T
      ∧ let is_const := forallb _constant Vs in
        _scalar_only T
        = (op_scalar_only Add && negb is_const)
          || existsb (λ V, _scalar_only V && negb (_constant V)) Vs.
Proof.
  split; [reflexivity|].
  apply (op_result_scalar_only (NP := ref_numpy) Add
           [PyTensor 0; PyArray (Literal (scalar int64 1))] [] []
           heap_s (heap_after s_plus_one heap_s) 2).
  reflexivity.
Defined.

Lemma op_result_constant_witness :
  s_plus_one heap_s = (heap_after s_plus_one heap_s, Ok 2)
  ∧ ∃ h1 vs Vs T,
      traverse coerce [PyTensor 0; PyArray (Literal (scalar int64 1))] heap_s = (h1, Ok vs)
      ∧ Forall2 (λ v V, tensors h1 !! v = Some V) vs Vs
      ∧ tensors (heap_after s_plus_one heap_s) !! 2 = Some T
      ∧ _constant T = forallb _constant Vs
      ∧ Forall2 (λ x v, ∀ u, x = PyTensor u → v = u)
                [PyTensor 0; PyArray (Literal (scalar int64 1))] vs
      ∧ Forall2 (λ x V, ∀ y, x = PyArray y →
                   _constant V = true ∧ _creator V = None ∧ grad V = None)
                [PyTensor 0; PyArray (Literal (scalar int64 1))] Vs.
Proof.
  split; [reflexivity|].
  apply (op_result_constant (NP := ref_numpy) Add
           [PyTensor 0; PyArray (Literal (scalar int64 1))] [] []
           heap_s (heap_after s_plus_one heap_s) 2).
  reflexivity.
Defined.

Lemma backward_default_seed_witness :
  (Tensor_backward 1 0 None heap_x
   = Tensor_backward 1 0 (Some (PyArray (Literal np_one))) heap_x
   ∧ grad_of (Tensor_backward 1 0 None heap_x).1 0 = Some (Some (scalar int64 1)))
  ∧ (Tensor_backward 1 0 None heap_v
     = Tensor_backward 1 0 (Some (PyArray (Literal (np_ones [2])))) heap_v
     ∧ grad_of (Tensor_backward 1 0 None heap_v).1 0
       = Some (Some (vector float64 [1; 1]%Z)))
  ∧ (∃ h' r,
       Tensor_backward 2 1 None heap_xx = (h', r)
       ∧ r ≠ Raise OutOfFuel
       ∧ grad_of h' 1 = Some (Some (scalar int64 1))).
Proof.
  split; [|split].
  - destruct (backward_default_seed (NP := ref_numpy) 0 0
                {| data := 0; grad := None; _constant := false;
                   _scalar_only := false; _creator := None |}
                (scalar int64 3) np_one heap_x) as (Heq & _ & _ & Hleaf);
      [apply well_formedb_spec; reflexivity | reflexivity | reflexivity
      | reflexivity | lia | left; split; reflexivity |].
    split; [exact Heq|]. rewrite (Hleaf eq_refl eq_refl). reflexivity.
  - destruct (backward_default_seed (NP := ref_numpy) 0 0
                {| data := 0; grad := None; _constant := false;
                   _scalar_only := false; _creator := None |}
                (vector int64 [1; 2]%Z) (np_ones [2]) heap_v) as (Heq & _ & _ & Hleaf);
      [apply well_formedb_spec; reflexivity | reflexivity | reflexivity
      | reflexivity | lia | right; split; [vm_compute; lia | reflexivity] |].
    split; [exact Heq|]. rewrite (Hleaf eq_refl eq_refl). reflexivity.
  - destruct (backward_default_seed (NP := ref_numpy) 1 1
                {| data := 1; grad := None; _constant := false;
                   _scalar_only := false; _creator := Some 0 |}
                (scalar int64 6) np_one heap_xx) as (_ & _ & Hrun & _);
      [apply well_formedb_spec; reflexivity | reflexivity | reflexivity
      | reflexivity | lia | left; split; reflexivity |].
    exact Hrun.
Defined.

Lemma null_gradients_clears_upstream_witness :
  well_formed heap_xx_back
  ∧ grad_of heap_xx_back 0 = Some (Some (scalar int64 2))
  ∧ ∃ h',
      Tensor_null_gradients 2 1 heap_xx_back = (h', Ok tt)
      ∧ grad_of h' 1 = Some None
      ∧ (∀ u, upstream heap_xx_back 1 u → grad_of h' u = Some None)
      ∧ same_graph heap_xx_back h'
      ∧ Tensor_null_gradients 2 1 h' = (h', Ok tt)
      ∧ ((∀ u, upstream heap_xx_back 1 u → grad_of heap_xx_back u = Some None)
         → h' = heap_xx_back).
Proof.
  assert (Hwf : well_formed heap_xx_back) by (apply well_formedb_spec; reflexivity).
  split; [exact Hwf|]. split; [reflexivity|].
  apply (null_gradients_clears_upstream (NP := ref_numpy) 2 1 heap_xx_back Hwf); vm_compute; lia.
Defined.

Lemma backward_accumulates_witness :
  (∃ h' r,
     Tensor_backward 1 0 (Some (PyArray (Literal (scalar int64 5)))) heap_x = (h', r)
     ∧ r ≠ Raise OutOfFuel
     ∧ grad_of h' 0 = Some (Some (scalar int64 5)))
  ∧ (∃ h' r,
       Tensor_backward 3 0 (Some (PyArray (Literal (scalar int64 5)))) heap_xx_back = (h', r)
       ∧ r ≠ Raise OutOfFuel
       ∧ grad_of h' 0 = Some (Some (scalar int64 7)))
  ∧ (∃ h1 y two,
       Tensor_add 0 (PyTensor 0) heap_x = (h1, Ok y)
       ∧ np_add ref_one ref_one = Ok two
       ∧ ∀ fuel, y < fuel →
           ∃ h2 r, Tensor_backward fuel y None h1 = (h2, r)
                   ∧ r ≠ Raise OutOfFuel
                   ∧ (r = Ok tt → grad_of h2 0 = Some (Some two))
                   ∧ (@None nat = None → r = Ok tt)).
Proof.
  destruct (backward_accumulates (NP := ref_numpy)) as [Hacc Hadd].
  split; [|split].
  - apply (Hacc 1 heap_x 0
             {| data := 0; grad := None; _constant := false;
                _scalar_only := false; _creator := None |}
             (PyArray (Literal (scalar int64 5))) (scalar int64 5));
      [apply well_formedb_spec; reflexivity | reflexivity | reflexivity | lia].
  - apply (Hacc 3 heap_xx_back 0
             {| data := 0; grad := Some (scalar int64 2); _constant := false;
                _scalar_only := false; _creator := None |}
             (PyArray (Literal (scalar int64 5))) (scalar int64 5));
      [apply well_formedb_spec; reflexivity | reflexivity | reflexivity | lia].
  - apply (Hadd heap_x 0
             {| data := 0; grad := None; _constant := false;
                _scalar_only := false; _creator := None |}
             (scalar int64 3));
      [apply well_formedb_spec; reflexivity | reflexivity..].
Defined.

End RefFacts.

(** * Instances of the further theorems on the reference model *)

Section MoreInstances.
Import RefNumPy.

Lemma Tensor_init_array_succeeds_witness :
  ∃ h' T,
    Tensor_init (PyArray (Literal (vector int64 [1; 2]%Z))) false false None empty_heap
      = (h', Ok (length (tensors empty_heap)))
    ∧ tensors h' = tensors empty_heap ++ [T]
    ∧ operations h' = operations empty_heap
    ∧ arrays empty_heap `prefix_of` arrays h'
    ∧ arrays h' !! data T = Some (vector int64 [1; 2]%Z)
    ∧ grad T = None
    ∧ _constant T = false ∧ _scalar_only T = false ∧ _creator T = None
    ∧ ∀ a, Literal (vector int64 [1; 2]%Z) = Ndarray a →
        data T = a ∧ arrays h' = arrays empty_heap.
Proof.
  apply (Tensor_init_array_succeeds (NP := ref_numpy)
           (Literal (vector int64 [1; 2]%Z)) false false None empty_heap
           (vector int64 [1; 2]%Z)); reflexivity.
Defined.

Lemma op_adds_one_node_witness :
  s_plus_one heap_s = (heap_after s_plus_one heap_s, Ok 2)
  ∧ ∃ news T O,
      tensors (heap_after s_plus_one heap_s) = tensors heap_s ++ news ++ [T]
      ∧ length news = raw_count [PyTensor 0; PyArray (Literal (scalar int64 1))]
      ∧ Forall constant_leaf news
      ∧ 2 = length (tensors heap_s)
            + raw_count [PyTensor 0; PyArray (Literal (scalar int64 1))]
      ∧ grad T = None
      ∧ _creator T = Some (length (operations heap_s))
      ∧ operations (heap_after s_plus_one heap_s) = operations heap_s ++ [O]
      ∧ op_class O = Add.
Proof.
  split; [reflexivity|].
  apply (op_adds_one_node (NP := ref_numpy) Add
           [PyTensor 0; PyArray (Literal (scalar int64 1))] [] []
           heap_s (heap_after s_plus_one heap_s) 2).
  reflexivity.
Defined.

Lemma op_rejects_non_numeric_input_witness :
  ∃ h', _op Add [PyTensor 0; PyArray (Literal strings_ab)] [] [] heap_x
          = (h', Raise (Exception (TypeError "Tensor data must be a numeric type")))
        ∧ operations h' = operations heap_x
        ∧ tensors heap_x `prefix_of` tensors h'.
Proof.
  apply (op_rejects_non_numeric_input (NP := ref_numpy) Add
           [PyTensor 0; PyArray (Literal strings_ab)] [] [] heap_x).
  - repeat constructor; intros y [= <-]; by exists strings_ab.
  - apply Exists_cons_tl, Exists_cons_hd.
    exists (Literal strings_ab), strings_ab. repeat split.
Defined.

Lemma op_constant_never_scalar_only_witness :
  c_plus_one heap_c = (heap_after c_plus_one heap_c, Ok 2)
  ∧ tensors (heap_after c_plus_one heap_c) !! 2
    = Some {| data := 2; grad := None; _constant := true;
              _scalar_only := false; _creator := Some 0 |}
  ∧ _scalar_only {| data := 2; grad := None; _constant := true;
                    _scalar_only := false; _creator := Some 0 |} = false.
Proof.
  split; [reflexivity|]. split; [reflexivity|].
  apply (op_constant_never_scalar_only (NP := ref_numpy) Add
           [PyTensor 0; PyArray (Literal (scalar int64 1))] [] []
           heap_c (heap_after c_plus_one heap_c) 2); reflexivity.
Defined.

Lemma binary_operator_with_raw_operand_witness :
  (Tensor_mul, (Multiply, false)) ∈ binary_operators
  ∧ x_times_four heap_x = (heap_after x_times_four heap_x, Ok 2)
  ∧ ∃ C T O v,
      tensors (heap_after x_times_four heap_x) = tensors heap_x ++ [C; T]
      ∧ 2 = S (length (tensors heap_x))
      ∧ constant_leaf C
      ∧ coerced (Literal (scalar int64 4)) heap_x = Some v
      ∧ arrays (heap_after x_times_four heap_x) !! data C = Some v
      ∧ grad T = None
      ∧ _creator T = Some (length (operations heap_x))
      ∧ operations (heap_after x_times_four heap_x) = operations heap_x ++ [O]
      ∧ op_class O = Multiply
      ∧ _constant T = false
      ∧ _scalar_only T = (op_scalar_only Multiply || false) && negb false.
Proof.
  assert (Hin : (Tensor_mul, (Multiply, false)) ∈ binary_operators).
  { unfold binary_operators. do 6 apply list_elem_of_further. apply list_elem_of_here. }
  split; [exact Hin|]. split; [reflexivity|].
  apply (binary_operator_with_raw_operand (NP := ref_numpy) (CAT := ref_catalogue)
           Tensor_mul Multiply false 0
           {| data := 0; grad := None; _constant := false;
              _scalar_only := false; _creator := None |}
           (Literal (scalar int64 4)) heap_x (heap_after x_times_four heap_x) 2 Hin);
    reflexivity.
Defined.

Lemma binary_operator_with_tensor_operand_witness :
  (Tensor_add, (Add, false)) ∈ binary_operators
  ∧ ∃ T O,
      tensors heap_xx = tensors heap_x ++ [T]
      ∧ 1 = length (tensors heap_x)
      ∧ tensors heap_xx !! 0
        = Some {| data := 0; grad := None; _constant := false;
                  _scalar_only := false; _creator := None |}
      ∧ tensors heap_xx !! 0
        = Some {| data := 0; grad := None; _constant := false;
                  _scalar_only := false; _creator := None |}
      ∧ grad T = None
      ∧ _creator T = Some (length (operations heap_x))
      ∧ operations heap_xx = operations heap_x ++ [O]
      ∧ op_class O = Add
      ∧ _constant T = false && false
      ∧ _scalar_only T
        = (op_scalar_only Add && negb (false && false))
          || (false && negb false) || (false && negb false).
Proof.
  assert (Hin : (Tensor_add, (Add, false)) ∈ binary_operators)
    by apply list_elem_of_here.
  split; [exact Hin|].
  apply (binary_operator_with_tensor_operand (NP := ref_numpy) (CAT := ref_catalogue)
           Tensor_add Add false 0
           {| data := 0; grad := None; _constant := false;
              _scalar_only := false; _creator := None |}
           0
           {| data := 0; grad := None; _constant := false;
              _scalar_only := false; _creator := None |}
           heap_x heap_xx 1 Hin); reflexivity.
Defined.

Lemma negation_is_a_product_witness :
  Tensor_invert 0 heap_x = (heap_after minus_x heap_x, Ok 2)
  ∧ Tensor_pos 0 heap_x = (heap_x, Ok 0)
  ∧ ∃ C T O,
      tensors (heap_after minus_x heap_x) = tensors heap_x ++ [C; T]
      ∧ 2 = S (length (tensors heap_x))
      ∧ constant_leaf C
      ∧ arrays (heap_after minus_x heap_x) !! data C = Some np_minus_one
      ∧ _creator T = Some (length (operations heap_x))
      ∧ operations (heap_after minus_x heap_x) = operations heap_x ++ [O]
      ∧ op_class O = Multiply
      ∧ _constant T = false
      ∧ _scalar_only T = (op_scalar_only Multiply || false) && negb false.
Proof.
  apply (negation_is_a_product (NP := ref_numpy) (CAT := ref_catalogue) 0
           {| data := 0; grad := None; _constant := false;
              _scalar_only := false; _creator := None |}
           heap_x (heap_after minus_x heap_x) 2); reflexivity.
Defined.

Lemma sum_result_witness :
  ∃ S T O,
    tensors heap_v !! 0 = Some S
    ∧ tensors (heap_after sum_v heap_v) !! 0 = Some S
    ∧ tensors (heap_after sum_v heap_v) = tensors heap_v ++ [T]
    ∧ 1 = length (tensors heap_v)
    ∧ grad T = None
    ∧ _creator T = Some (length (operations heap_v))
    ∧ operations (heap_after sum_v heap_v) = operations heap_v ++ [O]
    ∧ op_class O = Sum
    ∧ _constant T = _constant S
    ∧ _scalar_only T = (op_scalar_only Sum || _scalar_only S) && negb (_constant S).
Proof.
  apply (sum_result (NP := ref_numpy) (CAT := ref_catalogue) 0 ArgNone false
           heap_v (heap_after sum_v heap_v) 1); reflexivity.
Defined.

Lemma backward_touches_upstream_gradients_only_witness :
  ∃ h' r,
    Tensor_backward 3 1 None heap_xx = (h', r)
    ∧ r ≠ Raise OutOfFuel
    ∧ same_graph heap_xx h'
    ∧ (∀ u, ¬ upstream heap_xx 1 u → tensors h' !! u = tensors heap_xx !! u)
    ∧ well_formed h'
    ∧ (numeric_data heap_xx → numeric_data h').
Proof.
  apply (backward_touches_upstream_gradients_only (NP := ref_numpy) 3 1 None heap_xx);
    [apply well_formedb_spec; reflexivity | lia].
Defined.

Lemma null_gradients_result_witness :
  ∃ h',
    Tensor_null_gradients 2 1 heap_xx_back = (h', Ok tt)
    ∧ arrays h' = arrays heap_xx_back
    ∧ operations h' = operations heap_xx_back
    ∧ length (tensors h') = length (tensors heap_xx_back)
    ∧ ∀ u T, tensors heap_xx_back !! u = Some T →
        (upstream heap_xx_back 1 u → tensors h' !! u = Some (with_grad None T))
        ∧ (¬ upstream heap_xx_back 1 u → tensors h' !! u = Some T).
Proof.
  apply (null_gradients_result (NP := ref_numpy) 2 1 heap_xx_back);
    [apply well_formedb_spec; reflexivity | vm_compute; lia | lia].
Defined.

Lemma null_gradients_undoes_backward_witness :
  Tensor_null_gradients 2 1 (Tensor_backward 2 1 None heap_xx).1 = (heap_xx, Ok tt).
Proof.
  assert (Hwf : well_formed heap_xx) by (apply well_formedb_spec; reflexivity).
  apply (null_gradients_undoes_backward (NP := ref_numpy) 2 1 None heap_xx Hwf);
    [vm_compute; lia | lia |].
  intros u Hu. apply (upstream_le _ _ _ Hwf) in Hu.
  destruct u as [|[|u]]; [reflexivity | reflexivity | lia].
Defined.

Lemma construction_keeps_invariants_witness :
  (∀ x constant so h' t,
     Tensor_init x constant so None heap_v = (h', Ok t) →
     well_formed h' ∧ numeric_data h')
  ∧ (∀ t T, tensors heap_v !! t = Some T →
       ∃ h' c C a,
         Tensor_copy t heap_v = (h', Ok c)
         ∧ well_formed h' ∧ numeric_data h'
         ∧ tensors h' !! c = Some C
         ∧ arrays h' !! data C = Some a
         ∧ ∀ v, arrays (array_store (data T) v h') !! data C = Some a).
Proof.
  apply (construction_keeps_invariants (NP := ref_numpy) heap_v). split.
  - apply well_formedb_spec. reflexivity.
  - intros t T HT. destruct t as [|t]; [|by destruct t].
    injection HT as <-. exists (vector int64 [1; 2]%Z). split; reflexivity.
Defined.

Lemma op_keeps_invariants_witness :
  well_formed (heap_after s_plus_one heap_s)
  ∧ numeric_data (heap_after s_plus_one heap_s).
Proof.
  apply (op_keeps_invariants (NP := ref_numpy) Add
           [PyTensor 0; PyArray (Literal (scalar int64 1))] [] []
           heap_s (heap_after s_plus_one heap_s) 2); [|reflexivity].
  split.
  - apply well_formedb_spec. reflexivity.
  - intros t T HT. destruct t as [|t]; [|by destruct t].
    injection HT as <-. exists (vector float64 [1; 2]%Z). split; reflexivity.
Defined.

End MoreInstances.
